(** * A shallow embedding of [game/net/core.py]

    The module implements a small peer-to-peer session layer: a
    [NetManager] object (the session) and a [NetManagerThread] (the
    background task that establishes the connection and then runs the
    receive loop).  Frames on the wire are a 4-byte length header
    ([struct.pack("i", ...)]) followed by a pickled payload.

    The operating system, the peer and the [pickle] library are outside
    the source file.  They enter the model as follows:
    - every socket call that can fail or return data takes its outcome
      from an explicit answer supplied by the environment;
    - [pickle.dumps] / [pickle.loads] are the two methods of the
      [Pickle] class, and the platform dependent parts ([struct]'s
      native byte order, [socket.gethostname()]) are the fields of
      [Platform];
    - [sleep] and the values of the time-outs are not modelled.

    A thread advances by steps: the statements up to the first loop, or
    one test of a loop condition with the iteration that follows it.
    The methods of the session called by the consumer run between such
    steps; [disconnect] lets the thread run while it waits in [join]. *)

From Stdlib Require Import ZArith Lia Bool String.
From Stdlib.Strings Require Import Byte.
From stdpp Require Import base list strings.

Local Open Scope Z_scope.

(** ** Exceptions and results *)

(** The exception classes that the source distinguishes, plus the ones
    raised by [struct], [pickle] and [socket.recv] on bad arguments. *)
Inductive exn : Type :=
| BlockingIOError
| SocketTimeout            (* socket.timeout *)
| ConnectionResetError
| ConnectionRefusedError
| OSError                  (* any other OSError *)
| StructError              (* struct.error *)
| ValueError
| EOFError
| UnpicklingError
| PicklingError.

(** [isinstance(e, OSError)]: the socket exceptions are subclasses of
    [OSError]; every constructor of [exn] is an [Exception]. *)
Definition is_OSError (e : exn) : bool :=
  match e with
  | BlockingIOError | SocketTimeout | ConnectionResetError
  | ConnectionRefusedError | OSError => true
  | _ => false
  end.

Definition is_BlockingIOError (e : exn) : bool :=
  match e with BlockingIOError => true | _ => false end.

Definition is_timeout (e : exn) : bool :=
  match e with SocketTimeout => true | _ => false end.

Definition is_ConnectionResetError (e : exn) : bool :=
  match e with ConnectionResetError => true | _ => false end.

Inductive result (A : Type) : Type :=
| Ok (a : A)
| Raise (e : exn).
Arguments Ok {A} a.
Arguments Raise {A} e.

Definition bind_result {A B} (r : result A) (k : A -> result B) : result B :=
  match r with
  | Ok a => k a
  | Raise e => Raise e
  end.

Notation "'let*' x ':=' r 'in' k" := (bind_result r (fun x => k))
  (at level 10, x name, r at level 100, k at level 200).

(** What a Python call hands back to its caller: [None] or an integer. *)
Inductive pyval : Type :=
| PyNone
| PyInt (n : Z).

(** ** Bytes and [struct] *)

Definition bytes : Type := list byte.

Definition Z_of_byte (b : byte) : Z := Z.of_N (Byte.to_N b).

Definition byte_of_Z (z : Z) : byte :=
  match Byte.of_N (Z.to_N (Z.land z 255)) with
  | Some b => b
  | None => x00
  end.

Inductive endian : Type := LittleEndian | BigEndian.

(** The parts of the platform the module reads. *)
Class Platform : Type := {
  byteorder : endian;          (* sys.byteorder, used by the native "i" format *)
  gethostname : string         (* socket.gethostname() *)
}.

(** The serializer used for payloads: [pickle.dumps] and [pickle.loads].
    Both may raise. *)
Class Pickle (value : Type) : Type := {
  dumps : value -> result bytes;
  loads : bytes -> result value
}.

(** The round-trip law of the serializer: what [dumps] produces, [loads]
    reads back. *)
Class PickleLaws (value : Type) `{Pickle value} : Prop := {
  loads_dumps : forall (v : value) (b : bytes), dumps v = Ok b -> loads b = Ok v
}.

Definition int_min : Z := - 2 ^ 31.
Definition int_max : Z := 2 ^ 31 - 1.

(** The four bytes of a 32-bit word, least significant first. *)
Definition le_bytes4 (u : Z) : bytes :=
  [ byte_of_Z u; byte_of_Z (Z.shiftr u 8);
    byte_of_Z (Z.shiftr u 16); byte_of_Z (Z.shiftr u 24) ].

Definition le_word4 (b0 b1 b2 b3 : byte) : Z :=
  Z.lor (Z_of_byte b0)
    (Z.lor (Z.shiftl (Z_of_byte b1) 8)
       (Z.lor (Z.shiftl (Z_of_byte b2) 16) (Z.shiftl (Z_of_byte b3) 24))).

Definition to_signed32 (u : Z) : Z :=
  if u <? 2 ^ 31 then u else u - 2 ^ 32.

Section Codec.
Context `{Platform}.

(** [struct.pack("i", n)]: a native 4-byte signed int; [struct.error]
    when [n] does not fit. *)
Definition struct_pack_i (n : Z) : result bytes :=
  if (int_min <=? n) && (n <=? int_max) then
    let u := n mod 2 ^ 32 in
    Ok (match byteorder with
        | LittleEndian => le_bytes4 u
        | BigEndian => rev (le_bytes4 u)
        end)
  else Raise StructError.

(** [struct.unpack("i", b)[0]]: [struct.error] unless [b] has exactly
    four bytes. *)
Definition struct_unpack_i (b : bytes) : result Z :=
  match b with
  | [c0; c1; c2; c3] =>
      Ok (to_signed32
            (match byteorder with
             | LittleEndian => le_word4 c0 c1 c2 c3
             | BigEndian => le_word4 c3 c2 c1 c0
             end))
  | _ => Raise StructError
  end.

Context {value : Type} `{Pickle value}.

(** [NetManager._pack_data] *)
Definition _pack_data (data : value) : result bytes :=
  let* b_data := dumps data in
  let* b_length := struct_pack_i (Z.of_nat (length b_data)) in
  Ok (b_length ++ b_data).

(** What the environment answers to one [socket.recv] call: the bytes
    the kernel has for the caller, or the exception raised. *)
Inductive recv_answer : Type :=
| RecvBytes (avail : bytes)
| RecvRaise (e : exn).

(** [sock.recv(n)]: a negative buffer size is rejected with
    [ValueError] before anything is read; otherwise at most [n] of the
    available bytes are returned. *)
Definition sock_recv (n : Z) (a : recv_answer) : result bytes :=
  if n <? 0 then Raise ValueError
  else match a with
       | RecvBytes avail => Ok (take (Z.to_nat n) avail)
       | RecvRaise e => Raise e
       end.

(** The body of the receive loop up to the decoded value (the four
    statements under the inner [try] of [NetManagerThread.run], without
    the final [put]). *)
Definition recv_frame (a_hdr a_body : recv_answer) : result value :=
  let* b_length := sock_recv 4 a_hdr in
  let* len := struct_unpack_i b_length in
  let* b_data := sock_recv len a_body in
  loads b_data.

End Codec.

(** ** The world around the session *)

Definition sock : Type := nat.        (* a socket object *)
Definition thread_id : Type := nat.   (* a thread object *)

Inductive log_level : Type := Warning | Debug.

Inductive log_msg : Type :=
| MsgNotConnected               (* send: no connection yet *)
| MsgSendFailed (e : exn)       (* send: the write raised *)
| MsgConnectFailed (e : exn)    (* run: establishment raised *)
| MsgWaiting                    (* run: "waiting for connection" *)
| MsgThreadExit                 (* run: "net manager thread exit" *)
| MsgRecvFailed (e : exn).      (* run: receive raised *)

(** What an observer outside the process can see. *)
Inductive event : Type :=
| EvLog (lvl : log_level) (m : log_msg)
| EvBind (s : sock) (h : string) (p : Z)
| EvListen (s : sock) (backlog : Z)
| EvAccept (tid : thread_id) (server cli : sock)
| EvConnect (s : sock) (h : string) (p : Z)
| EvSendAll (s : sock) (frame : bytes)
| EvCallback (tid : thread_id) (cb : nat) (arg : option exn).

(** How [NetManagerThread.run] returned. *)
Inductive exit_path : Type :=
| ExitShutdown              (* the [else] of the accept loop: stop flag seen *)
| ExitFailed (e : exn)      (* the outer [except]: establishment failed *)
| ExitRecvLoop.             (* past the [finally] of the receive loop *)

(** Where a started thread is in [run]: before its first statement, at the
    test of the accept loop, at the test of the receive loop, or
    returned.  [PAccept] and [PRecv] carry [self.server] and
    [self.client]. *)
Inductive phase : Type :=
| PStart
| PAccept (server : sock)
| PRecv (cli : sock)
| PDone (p : exit_path).

(** A [NetManagerThread] object; the prefix [t_] tells its attributes
    from the session's.  Its [stop_event] and [net_man] attributes are
    references to the session's event and to the session itself; they
    are read and written through the shared [System] below. *)
Record NetManagerThread : Type := {
  t_as_server : bool;
  t_host : string;
  t_port : Z;
  connect_callback : nat;
  t_phase : phase
}.

Definition with_phase (t : NetManagerThread) (p : phase) : NetManagerThread :=
  {| t_as_server := t_as_server t; t_host := t_host t; t_port := t_port t;
     connect_callback := connect_callback t; t_phase := p |}.

(** [Thread.is_alive()] *)
Definition is_alive (t : NetManagerThread) : bool :=
  match t_phase t with
  | PDone _ => false
  | _ => true
  end.

(** The environment's answers to the calls one step of [run] can make.
    [None] means the call returned normally. *)
Record answers : Type := {
  a_socket : option exn;         (* socket.socket(AF_INET, SOCK_STREAM) *)
  a_bind : option exn;           (* server.bind((host, port)) *)
  a_listen : option exn;         (* server.listen(3) *)
  a_connect : option exn;        (* client.connect((host, port)) *)
  a_accept : option exn;         (* server.accept() *)
  a_recv_hdr : recv_answer;      (* client.recv(4) *)
  a_recv_body : recv_answer      (* client.recv(length) *)
}.

Section Model.
Context `{Platform} {value : Type} `{Pickle value}.

(** The attributes of a [NetManager] object. *)
Record NetManager : Type := {
  as_server : bool;
  host : string;
  port : Z;
  _listen_thread : option thread_id;
  _stop_event : bool;
  client : option sock;
  data_queue : list value
}.

(** The session together with the objects it shares with its threads
    and with the operating system. *)
Record System : Type := {
  net : NetManager;
  threads : list NetManagerThread;   (* every thread object created *)
  closed : list sock;                (* sockets on which close() ran *)
  next_sock : sock;                  (* the next socket object *)
  trace : list event                 (* newest first *)
}.

(** [NetManager.__init__(as_server, host=None, port=11111)] in a fresh
    process. *)
Definition __init__ (srv : bool) (h : option string) (p : option Z) : System :=
  {| net := {| as_server := srv;
               host := match h with Some x => x | None => gethostname end;
               port := match p with Some x => x | None => 11111 end;
               _listen_thread := None;
               _stop_event := false;
               client := None;
               data_queue := [] |};
     threads := [];
     closed := [];
     next_sock := 0%nat;
     trace := [] |}.

(** *** Field updates *)

Definition set_client (c : option sock) (s : System) : System :=
  {| net := {| as_server := as_server (net s); host := host (net s);
               port := port (net s);
               _listen_thread := _listen_thread (net s);
               _stop_event := _stop_event (net s);
               client := c;
               data_queue := data_queue (net s) |};
     threads := threads s; closed := closed s;
     next_sock := next_sock s; trace := trace s |}.

Definition set_stop (s : System) : System :=
  {| net := {| as_server := as_server (net s); host := host (net s);
               port := port (net s);
               _listen_thread := _listen_thread (net s);
               _stop_event := true;
               client := client (net s);
               data_queue := data_queue (net s) |};
     threads := threads s; closed := closed s;
     next_sock := next_sock s; trace := trace s |}.

Definition set_queue (q : list value) (s : System) : System :=
  {| net := {| as_server := as_server (net s); host := host (net s);
               port := port (net s);
               _listen_thread := _listen_thread (net s);
               _stop_event := _stop_event (net s);
               client := client (net s);
               data_queue := q |};
     threads := threads s; closed := closed s;
     next_sock := next_sock s; trace := trace s |}.

Definition set_listen_thread (tid : thread_id) (s : System) : System :=
  {| net := {| as_server := as_server (net s); host := host (net s);
               port := port (net s);
               _listen_thread := Some tid;
               _stop_event := _stop_event (net s);
               client := client (net s);
               data_queue := data_queue (net s) |};
     threads := threads s; closed := closed s;
     next_sock := next_sock s; trace := trace s |}.

Definition set_threads (ts : list NetManagerThread) (s : System) : System :=
  {| net := net s; threads := ts; closed := closed s;
     next_sock := next_sock s; trace := trace s |}.

Definition emit (e : event) (s : System) : System :=
  {| net := net s; threads := threads s; closed := closed s;
     next_sock := next_sock s; trace := e :: trace s |}.

(** [socket.socket(...)] or the socket returned by [accept]: a new
    object. *)
Definition new_sock (s : System) : System :=
  {| net := net s; threads := threads s; closed := closed s;
     next_sock := S (next_sock s); trace := trace s |}.

(** [sock.close()]; closing a closed socket does nothing. *)
Definition sock_close (c : sock) (s : System) : System :=
  if bool_decide (c ∈ closed s) then s
  else {| net := net s; threads := threads s; closed := c :: closed s;
          next_sock := next_sock s; trace := trace s |}.

Definition set_phase (tid : thread_id) (t : NetManagerThread) (p : phase)
    (s : System) : System :=
  set_threads (<[tid := with_phase t p]> (threads s)) s.

Definition thread_alive (tid : thread_id) (s : System) : bool :=
  match threads s !! tid with
  | Some t => is_alive t
  | None => false
  end.

(** *** [NetManagerThread.run], one step at a time *)

(** The outer [except Exception as e]: log, report through the
    callback, return. *)
Definition connect_failed (tid : thread_id) (t : NetManagerThread) (e : exn)
    (s : System) : System :=
  set_phase tid t (PDone (ExitFailed e))
    (emit (EvCallback tid (connect_callback t) (Some e))
       (emit (EvLog Warning (MsgConnectFailed e)) s)).

(** After the outer [try]: configure the socket, publish it on the
    session, report success, and go to the receive loop.
    [setblocking(True)] and [settimeout(0.1)] act on a socket that only
    this thread holds so far.  The callback is the consumer's code: here
    and in [connect_failed] it is an event of the trace, and it is taken
    to return normally. *)
Definition established (tid : thread_id) (t : NetManagerThread) (c : sock)
    (s : System) : System :=
  set_phase tid t (PRecv c)
    (emit (EvCallback tid (connect_callback t) None)
       (set_client (Some c) s)).

(** The first statements of [run], up to the accept loop (listener) or
    through [connect] (initiator). *)
Definition run_start (tid : thread_id) (t : NetManagerThread) (a : answers)
    (s : System) : System :=
  match a_socket a with
  | Some e => connect_failed tid t e s
  | None =>
      let fd := next_sock s in
      let s := new_sock s in
      if t_as_server t then
        let s := emit (EvBind fd (t_host t) (t_port t)) s in
        match a_bind a with
        | Some e => connect_failed tid t e s
        | None =>
            let s := emit (EvListen fd 3) s in
            match a_listen a with
            | Some e => connect_failed tid t e s
            | None => set_phase tid t (PAccept fd) s
            end
        end
      else
        let s := emit (EvConnect fd (t_host t) (t_port t)) s in
        match a_connect a with
        | Some e => connect_failed tid t e s
        | None => established tid t fd s
        end
  end.

(** One test of [while not self.stop_event.is_set()] in the accept loop
    and, when it passes, one [accept]. *)
Definition accept_step (tid : thread_id) (t : NetManagerThread) (server : sock)
    (a : answers) (s : System) : System :=
  if _stop_event (net s) then
    set_phase tid t (PDone ExitShutdown) (emit (EvLog Debug MsgThreadExit) s)
  else
    match a_accept a with
    | None =>
        let c := next_sock s in
        established tid t c (emit (EvAccept tid server c) (new_sock s))
    | Some e =>
        if is_BlockingIOError e then emit (EvLog Debug MsgWaiting) s
        else connect_failed tid t e s
    end.

(** Leaving the receive loop: the debug line, then the [finally]. *)
Definition leave_recv_loop (tid : thread_id) (t : NetManagerThread) (c : sock)
    (s : System) : System :=
  set_phase tid t (PDone ExitRecvLoop)
    (set_client None (sock_close c (emit (EvLog Debug MsgThreadExit) s))).

(** One test of the receive loop and, when it passes, one iteration. *)
Definition recv_step (tid : thread_id) (t : NetManagerThread) (c : sock)
    (a : answers) (s : System) : System :=
  if _stop_event (net s) then leave_recv_loop tid t c s
  else
    match recv_frame (a_recv_hdr a) (a_recv_body a) with
    | Ok data => set_queue (data_queue (net s) ++ [data]) s
    | Raise e =>
        if is_timeout e then s
        else if is_ConnectionResetError e then leave_recv_loop tid t c s
        else if is_OSError e then leave_recv_loop tid t c s
        else leave_recv_loop tid t c (emit (EvLog Warning (MsgRecvFailed e)) s)
    end.

Definition thread_step (tid : thread_id) (a : answers) (s : System) : System :=
  match threads s !! tid with
  | None => s
  | Some t =>
      match t_phase t with
      | PStart => run_start tid t a s
      | PAccept server => accept_step tid t server a s
      | PRecv c => recv_step tid t c a s
      | PDone _ => s
      end
  end.

(** [Thread.join()]: the caller waits while the thread runs.  [env]
    lists the environment's answers to the steps the thread takes
    meanwhile; [None] when they run out with the thread still alive. *)
Fixpoint join (env : list answers) (tid : thread_id) (s : System)
    : option System :=
  if thread_alive tid s then
    match env with
    | [] => None
    | a :: env' => join env' tid (thread_step tid a s)
    end
  else Some s.

(** *** The methods of [NetManager] *)

Definition connect (cb : nat) (s : System) : System :=
  let spawn :=
    match _listen_thread (net s) with
    | None => true
    | Some tid => negb (thread_alive tid s)
    end in
  if spawn then
    let tid := length (threads s) in
    set_listen_thread tid
      (set_threads
         (threads s ++ [ {| t_as_server := as_server (net s);
                            t_host := host (net s);
                            t_port := port (net s);
                            connect_callback := cb;
                            t_phase := PStart |} ]) s)
  else s.

Definition disconnect (env : list answers) (s : System) : option System :=
  let s := set_stop s in
  let s := match client (net s) with
           | Some c => sock_close c s
           | None => s
           end in
  match _listen_thread (net s) with
  | Some tid => if thread_alive tid s then join env tid s else Some s
  | None => Some s
  end.

Definition is_connected (s : System) : bool :=
  match client (net s) with
  | None => false
  | Some _ => true
  end.

(** [send]: [w] is the outcome of [sendall] should it be reached. *)
Definition send (data : value) (w : option exn) (s : System) : System * pyval :=
  match client (net s) with
  | None => (emit (EvLog Warning MsgNotConnected) s, PyInt 1)
  | Some c =>
      match (let* frame := _pack_data data in
             match w with
             | None => Ok frame
             | Some e => Raise e
             end) with
      | Ok frame => (emit (EvSendAll c frame) s, PyInt 0)
      | Raise e => (emit (EvLog Warning (MsgSendFailed e)) s, PyNone)
      end
  end.

Definition recv (s : System) : System * option value :=
  match data_queue (net s) with
  | [] => (s, None)
  | v :: q => (set_queue q s, Some v)
  end.

(** *** Executions *)

Inductive op : Type :=
| OpConnect (cb : nat)
| OpDisconnect (env : list answers)
| OpSend (data : value) (w : option exn)
| OpRecv
| OpThreadStep (tid : thread_id) (a : answers).

(** [None]: the operation has not returned (a [join] still waiting). *)
Definition exec (o : op) (s : System) : option System :=
  match o with
  | OpConnect cb => Some (connect cb s)
  | OpDisconnect env => disconnect env s
  | OpSend data w => Some (fst (send data w s))
  | OpRecv => Some (fst (recv s))
  | OpThreadStep tid a => Some (thread_step tid a s)
  end.

Fixpoint exec_all (os : list op) (s : System) : option System :=
  match os with
  | [] => Some s
  | o :: os' =>
      match exec o s with
      | Some s' => exec_all os' s'
      | None => None
      end
  end.

(** The states a session created by [__init__] can be in. *)
Definition reachable (srv : bool) (h : option string) (p : option Z)
    (s : System) : Prop :=
  exists os, exec_all os (__init__ srv h p) = Some s.

(** The arguments of the callback invocations made by thread [tid],
    oldest first. *)
Definition callbacks_of (tid : thread_id) (tr : list event)
    : list (option exn) :=
  rev (omap (fun e => match e with
                      | EvCallback tid' _ arg =>
                          if bool_decide (tid' = tid) then Some arg else None
                      | _ => None
                      end) tr).

Definition accepts_of (tid : thread_id) (tr : list event) : list sock :=
  omap (fun e => match e with
                 | EvAccept tid' _ c =>
                     if bool_decide (tid' = tid) then Some c else None
                 | _ => None
                 end) tr.

End Model.

Arguments NetManager value : clear implicits.
Arguments System value : clear implicits.
Arguments op value : clear implicits.

(** ** Invariants of the session *)

Section Invariants.
Context `{Platform} {value : Type} `{Pickle value}.

Definition thread_phase (tid : thread_id) (s : System value) : option phase :=
  t_phase <$> threads s !! tid.

(** The callback invocations a thread has made, by where it is. *)
Definition expected_callbacks (p : phase) : list (option exn) :=
  match p with
  | PStart | PAccept _ => []
  | PRecv _ => [None]
  | PDone ExitShutdown => []
  | PDone (ExitFailed e) => [Some e]
  | PDone ExitRecvLoop => [None]
  end.

Record session_inv (srv : bool) (s : System value) : Prop := {
  (* the role never changes and every thread was created with it *)
  inv_role : as_server (net s) = srv;
  inv_thread_role :
    forall tid t, threads s !! tid = Some t -> t_as_server t = srv;
  (* a live thread is the one the session refers to *)
  inv_alive :
    forall tid t, threads s !! tid = Some t -> is_alive t = true ->
                  _listen_thread (net s) = Some tid;
  (* the session holds a socket only while its thread is in the receive
     loop on that socket *)
  inv_client :
    forall c, client (net s) = Some c ->
              exists tid, _listen_thread (net s) = Some tid /\
                          thread_phase tid s = Some (PRecv c);
  (* callbacks made so far *)
  inv_callbacks :
    forall tid t, threads s !! tid = Some t ->
                  callbacks_of tid (trace s) = expected_callbacks (t_phase t);
  (* thread objects not yet created have done nothing *)
  inv_fresh :
    forall tid, (length (threads s) <= tid)%nat ->
                callbacks_of tid (trace s) = [] /\ accepts_of tid (trace s) = []
}.

(** How many more steps a thread takes at most once the stop flag is
    set. *)
Definition steps_left (p : phase) : nat :=
  match p with
  | PStart => 2
  | PAccept _ | PRecv _ => 1
  | PDone _ => 0
  end.

(** The socket the session refers to is closed, unless thread [tid] is
    in the receive loop on it. *)
Definition client_closed_or_owned (tid : thread_id) (s : System value) : Prop :=
  forall c, client (net s) = Some c ->
            c ∈ closed s \/ thread_phase tid s = Some (PRecv c).

(** After [disconnect]: [n] is the number of thread objects that
    existed when it returned. *)
Record stopped_inv (n : nat) (s : System value) : Prop := {
  st_stop : _stop_event (net s) = true;
  st_no_accept :
    forall tid, (n <= tid)%nat -> accepts_of tid (trace s) = [];
  st_listener :
    as_server (net s) = true ->
    client (net s) = None /\
    (forall tid c, thread_phase tid s <> Some (PRecv c)) /\
    (forall tid, (n <= tid)%nat ->
                 thread_phase tid s <> Some (PDone ExitRecvLoop))
}.

(** Every address the session has bound or dialled. *)
Definition addr_event_ok (h : string) (p : Z) (e : event) : Prop :=
  match e with
  | EvBind _ h' p' | EvConnect _ h' p' => h' = h /\ p' = p
  | _ => True
  end.

Record addr_inv (h : string) (p : Z) (s : System value) : Prop := {
  ad_host : host (net s) = h;
  ad_port : port (net s) = p;
  ad_threads :
    forall tid t, threads s !! tid = Some t -> t_host t = h /\ t_port t = p;
  ad_trace : Forall (addr_event_ok h p) (trace s)
}.

(** *** Two sentences of the specification, as they are written *)

(** "A header that does not match the actual remaining byte count read
    must surface a decode error": whenever the number of payload bytes
    the second read returns differs from the header's value, receiving
    the frame raises. *)
Definition header_mismatch_is_error : Prop :=
  forall (hdr avail got : bytes) (n : Z),
    struct_unpack_i hdr = Ok n ->
    sock_recv n (RecvBytes avail) = Ok got ->
    Z.of_nat (length got) <> n ->
    exists e, recv_frame (RecvBytes hdr) (RecvBytes avail) = Raise e.

(** "Every subsequent connect() spawns a background task that, in the
    listener role, exits without accepting a connection and without
    invoking the callback." *)
Definition listener_after_disconnect_is_silent : Prop :=
  forall (h : option string) (p : option Z) (s s1 : System value)
         (env : list answers) (cb : nat) (a1 a2 : answers),
    reachable true h p s ->
    disconnect env s = Some s1 ->
    let tid := length (threads s1) in
    let s2 := thread_step tid a2 (thread_step tid a1 (connect cb s1)) in
    thread_alive tid s2 = false /\
    accepts_of tid (trace s2) = [] /\
    callbacks_of tid (trace s2) = [].

(** The exception that ends the establishment calls of [run], if one
    does: the first raised among [socket], [bind], [listen] for a
    listener, among [socket], [connect] for an initiator. *)
Definition setup_raises (srv : bool) (a : answers) : option exn :=
  match a_socket a with
  | Some e => Some e
  | None =>
      if srv then
        match a_bind a with
        | Some e => Some e
        | None => a_listen a
        end
      else a_connect a
  end.

End Invariants.

(** ** Discovery datagrams

    [broadcast] and [recv_broadcast] are methods of [NetManager] that
    never read or write [self]: each creates a UDP socket of its own,
    uses it once and closes it.  They act on the sockets of the
    [System] and report the socket calls they made, oldest first.
    Neither catches an exception: what a call raises reaches the
    caller. *)

Definition address : Type := string * Z.

Inductive udp_event : Type :=
| UdpSetBroadcast (s : sock)                       (* setsockopt(SOL_SOCKET, SO_BROADCAST, 1) *)
| UdpBind (s : sock) (a : address)
| UdpSendTo (s : sock) (data : bytes) (a : address)
| UdpRecvFrom (s : sock) (bufsize : Z).

(** The environment's answers to the calls of the two methods.  For
    [recvfrom], [None] means that no datagram ever arrives: the call
    does not return.  Otherwise the answer is the exception raised or
    the datagram delivered, with its sender. *)
Record udp_answers : Type := {
  u_socket : option exn;         (* socket.socket(AF_INET, SOCK_DGRAM) *)
  u_setsockopt : option exn;     (* s.setsockopt(...) *)
  u_bind : option exn;           (* s.bind(('', port)) *)
  u_sendto : option exn;         (* s.sendto(data_bin, address) *)
  u_recvfrom : option (result (bytes * address))   (* s.recvfrom(1024) *)
}.

Section Discovery.
Context `{Platform} {value : Type} `{Pickle value}.

(** [NetManager.broadcast(data, port=10130)] *)
Definition broadcast (data : value) (port : option Z) (a : udp_answers)
    (s : System value) : System value * list udp_event * result pyval :=
  let address := ("255.255.255.255"%string,
                  match port with Some x => x | None => 10130 end) in
  match u_socket a with
  | Some e => (s, [], Raise e)
  | None =>
      let fd := next_sock s in
      let s := new_sock s in
      match u_setsockopt a with
      | Some e => (s, [UdpSetBroadcast fd], Raise e)
      | None =>
          match dumps data with
          | Raise e => (s, [UdpSetBroadcast fd], Raise e)
          | Ok data_bin =>
              let evs := [UdpSetBroadcast fd; UdpSendTo fd data_bin address] in
              match u_sendto a with
              | Some e => (s, evs, Raise e)
              | None => (sock_close fd s, evs, Ok PyNone)
              end
          end
      end
  end.

(** [NetManager.recv_broadcast(port=10130)]; [None] when the call does
    not return.  A datagram longer than the buffer of 1024 bytes is cut
    to the buffer. *)
Definition recv_broadcast (port : option Z) (a : udp_answers) (s : System value)
    : option (System value * list udp_event * result (value * address)) :=
  let address := (""%string, match port with Some x => x | None => 10130 end) in
  match u_socket a with
  | Some e => Some (s, [], Raise e)
  | None =>
      let fd := next_sock s in
      let s := new_sock s in
      match u_setsockopt a with
      | Some e => Some (s, [UdpSetBroadcast fd], Raise e)
      | None =>
          match u_bind a with
          | Some e => Some (s, [UdpSetBroadcast fd; UdpBind fd address], Raise e)
          | None =>
              let evs := [UdpSetBroadcast fd; UdpBind fd address;
                          UdpRecvFrom fd 1024] in
              match u_recvfrom a with
              | None => None
              | Some (Raise e) => Some (s, evs, Raise e)
              | Some (Ok (payload, sender)) =>
                  let data := take 1024 payload in
                  let s := sock_close fd s in
                  match loads data with
                  | Raise e => Some (s, evs, Raise e)
                  | Ok v => Some (s, evs, Ok (v, sender))
                  end
              end
          end
      end
  end.

(** ** Callers *)

(** A consumer polling [recv] [n] times: the state afterwards and the
    values obtained, in the order of the calls ([None] results
    dropped). *)
Fixpoint drain (n : nat) (s : System value) : System value * list value :=
  match n with
  | O => (s, [])
  | S k =>
      match recv s with
      | (s', Some v) => let (s'', vs) := drain k s' in (s'', v :: vs)
      | (s', None) => drain k s'
      end
  end.

(** A thread taking one step per answer, in order. *)
Fixpoint thread_steps (tid : thread_id) (env : list answers) (s : System value)
    : System value :=
  match env with
  | [] => s
  | a :: env' => thread_steps tid env' (thread_step tid a s)
  end.

Definition is_disconnect (o : op value) : bool :=
  match o with
  | OpDisconnect _ => true
  | _ => false
  end.

Definition is_recv (o : op value) : bool :=
  match o with
  | OpRecv => true
  | _ => false
  end.

(** ** Further invariants *)

(** A thread in the receive loop has published its socket on the
    session. *)
Definition recv_owner_inv (s : System value) : Prop :=
  forall tid c, thread_phase tid s = Some (PRecv c) -> client (net s) = Some c.

(** [fd] was bound as a listening socket. *)
Definition server_sock (fd : sock) (tr : list event) : Prop :=
  exists h p, EvBind fd h p ∈ tr.

(** Socket objects are handed out in order, and the sockets that reach
    the receive loop, the session's socket and the closed sockets are
    not listening sockets. *)
Record sock_inv (s : System value) : Prop := {
  sk_bound :
    forall fd, server_sock fd (trace s) -> (fd < next_sock s)%nat;
  sk_recv :
    forall tid c, thread_phase tid s = Some (PRecv c) ->
                  (c < next_sock s)%nat /\ ~ server_sock c (trace s);
  sk_client :
    forall c, client (net s) = Some c ->
              (c < next_sock s)%nat /\ ~ server_sock c (trace s);
  sk_closed :
    forall c, c ∈ closed s ->
              (c < next_sock s)%nat /\ ~ server_sock c (trace s)
}.

End Discovery.

(** ** A concrete platform and serializer

    Used to run the model on explicit inputs.  The serializer writes and
    reads the protocol-4 pickles of [None], [True], [False] and the
    integers 0..255: [PROTO 4], one opcode with its argument, [STOP].
    As with [pickle.loads], bytes after [STOP] are ignored. *)

Module PickleSubset.

Inductive obj : Type :=
| ONone
| OBool (b : bool)
| OInt (n : byte).

Definition obj_dumps (o : obj) : result bytes :=
  Ok ([x80; x04] ++
      match o with
      | ONone => [x4e]                 (* NONE *)
      | OBool true => [x88]            (* NEWTRUE *)
      | OBool false => [x89]           (* NEWFALSE *)
      | OInt n => [x4b; n]             (* BININT1 *)
      end ++ [x2e]).                   (* STOP *)

Definition obj_loads (b : bytes) : result obj :=
  match b with
  | [] => Raise EOFError
  | x80 :: x04 :: x4e :: x2e :: _ => Ok ONone
  | x80 :: x04 :: x88 :: x2e :: _ => Ok (OBool true)
  | x80 :: x04 :: x89 :: x2e :: _ => Ok (OBool false)
  | x80 :: x04 :: x4b :: n :: x2e :: _ => Ok (OInt n)
  | _ => Raise UnpicklingError
  end.

#[local] Instance pickle : Pickle obj :=
  {| dumps := obj_dumps; loads := obj_loads |}.

#[local] Instance platform : Platform :=
  {| byteorder := LittleEndian; gethostname := "player-pc" |}.

(** No call raises, a peer connects, and the peer has sent the frame of
    the integer 5. *)
Definition calm : answers :=
  {| a_socket := None; a_bind := None; a_listen := None;
     a_connect := None; a_accept := None;
     a_recv_hdr := RecvBytes [x05; x00; x00; x00];
     a_recv_body := RecvBytes [x80; x04; x4b; x05; x2e] |}.

(** The peer announces seven payload bytes and delivers the five
    bytes of the pickle of 5. *)
Definition short_body : answers :=
  {| a_socket := None; a_bind := None; a_listen := None;
     a_connect := None; a_accept := None;
     a_recv_hdr := RecvBytes [x07; x00; x00; x00];
     a_recv_body := RecvBytes [x80; x04; x4b; x05; x2e] |}.

(** Binding the listening socket fails. *)
Definition bind_fails : answers :=
  {| a_socket := None; a_bind := Some OSError; a_listen := None;
     a_connect := None; a_accept := None;
     a_recv_hdr := RecvRaise SocketTimeout;
     a_recv_body := RecvRaise SocketTimeout |}.

(** A listener session whose thread has accepted a peer and sits in
    the receive loop, and an initiator session in the same position. *)
Definition listening : System obj :=
  thread_step 0%nat calm (connect 7%nat (__init__ true None None)).

Definition connected : System obj :=
  thread_step 0%nat calm listening.

Definition dialled : System obj :=
  thread_step 0%nat calm (connect 7%nat (__init__ false None None)).

(** The peer has closed the connection: the read returns no bytes. *)
Definition peer_closed : answers :=
  {| a_socket := None; a_bind := None; a_listen := None;
     a_connect := None; a_accept := None;
     a_recv_hdr := RecvBytes [];
     a_recv_body := RecvBytes [] |}.

(** The thread object of [connected]. *)
Definition receiver : NetManagerThread :=
  {| t_as_server := true; t_host := "player-pc"; t_port := 11111;
     connect_callback := 7; t_phase := PRecv 1%nat |}.

(** [connected] after [disconnect], then after a new [connect] whose
    thread has taken two steps. *)
Definition hung_up : System obj :=
  default connected (disconnect [calm; calm] connected).

Definition restart : list (op obj) :=
  [OpConnect 8; OpThreadStep 1%nat calm; OpThreadStep 1%nat calm].

Definition restarted : System obj :=
  default hung_up (exec_all restart hung_up).

End PickleSubset.

(** ** Further explicit inputs *)

Module Scenarios.
Import PickleSubset.
#[local] Existing Instance PickleSubset.pickle.
#[local] Existing Instance PickleSubset.platform.

(** The frame of the integer 5. *)
Definition frame5 : bytes := [x05; x00; x00; x00; x80; x04; x4b; x05; x2e].

(** The whole frame is there when the header is read. *)
Definition frame_arrives : answers :=
  {| a_socket := None; a_bind := None; a_listen := None;
     a_connect := None; a_accept := None;
     a_recv_hdr := RecvBytes frame5;
     a_recv_body := RecvBytes (drop 4 frame5) |}.

(** The header announces -1 bytes. *)
Definition negative_header : answers :=
  {| a_socket := None; a_bind := None; a_listen := None;
     a_connect := None; a_accept := None;
     a_recv_hdr := RecvBytes [xff; xff; xff; xff];
     a_recv_body := RecvBytes [] |}.

(** The header arrives, the payload does not arrive in time. *)
Definition body_timeout : answers :=
  {| a_socket := None; a_bind := None; a_listen := None;
     a_connect := None; a_accept := None;
     a_recv_hdr := RecvBytes [x05; x00; x00; x00];
     a_recv_body := RecvRaise SocketTimeout |}.

(** No peer is trying to connect. *)
Definition nobody_yet : answers :=
  {| a_socket := None; a_bind := None; a_listen := None;
     a_connect := None; a_accept := Some BlockingIOError;
     a_recv_hdr := RecvRaise SocketTimeout;
     a_recv_body := RecvRaise SocketTimeout |}.

(** The thread object of [listening]. *)
Definition waiter : NetManagerThread :=
  {| t_as_server := true; t_host := "player-pc"; t_port := 11111;
     connect_callback := 7; t_phase := PAccept 0%nat |}.

(** [listening] after [disconnect]. *)
Definition gave_up : System obj :=
  default listening (disconnect [calm] listening).

(** The history of [connected] and of [hung_up]. *)
Definition to_connected : list (op obj) :=
  [OpConnect 7; OpThreadStep 0%nat calm; OpThreadStep 0%nat calm].

Definition to_hung_up : list (op obj) :=
  to_connected ++ [OpDisconnect [calm; calm]].

(** [connected] with one value received, and what follows: another
    frame, a [send], a [disconnect]. *)
Definition received_one : System obj := thread_step 0%nat calm connected.

Definition busy : list (op obj) :=
  [OpThreadStep 0%nat calm; OpSend (OInt x05) None; OpDisconnect [calm; calm]].

Definition after_busy : System obj :=
  default received_one (exec_all busy received_one).



(** [hung_up] after a new [connect], with the new thread object. *)
Definition redial : System obj := connect 8 hung_up.

Definition restarter : NetManagerThread :=
  {| t_as_server := true; t_host := "player-pc"; t_port := 11111;
     connect_callback := 8; t_phase := PStart |}.

(** No call raises; the datagram delivered is the pickle of 5, sent
    from 192.168.1.20. *)
Definition udp_calm : udp_answers :=
  {| u_socket := None; u_setsockopt := None; u_bind := None;
     u_sendto := None;
     u_recvfrom := Some (Ok ([x80; x04; x4b; x05; x2e],
                             ("192.168.1.20"%string, 50000))) |}.

(** The port is taken: [bind] raises. *)
Definition udp_port_taken : udp_answers :=
  {| u_socket := None; u_setsockopt := None; u_bind := Some OSError;
     u_sendto := None; u_recvfrom := None |}.

End Scenarios.

(** * Properties *)

(** ** Arithmetic of the header *)

Lemma Z_of_byte_of_Z (z : Z) : Z_of_byte (byte_of_Z z) = z mod 2 ^ 8.
Proof.
  unfold Z_of_byte, byte_of_Z.
  assert (Hl : Z.land z 255 = z mod 2 ^ 8)
    by (change 255 with (Z.ones 8); rewrite Z.land_ones by lia; reflexivity).
  rewrite Hl.
  pose proof (Z.mod_pos_bound z (2 ^ 8) ltac:(lia)) as Hb.
  destruct (Byte.of_N (Z.to_N (z mod 2 ^ 8))) as [b|] eqn:E.
  - apply Byte.to_of_N in E. rewrite E. lia.
  - apply Byte.of_N_None_iff in E. lia.
Qed.

(** Reassembling the four bytes of a 32-bit word gives the word back. *)
Lemma le_word4_bytes (u : Z) :
  0 <= u < 2 ^ 32 ->
  le_word4 (byte_of_Z u) (byte_of_Z (Z.shiftr u 8))
           (byte_of_Z (Z.shiftr u 16)) (byte_of_Z (Z.shiftr u 24)) = u.
Proof.
  intros Hu. unfold le_word4. rewrite !Z_of_byte_of_Z.
  apply Z.bits_inj'. intros n Hn.
  rewrite !Z.lor_spec, !Z.shiftl_spec by lia.
  destruct (Z.ltb_spec n 8).
  { rewrite Z.mod_pow2_bits_low by lia.
    rewrite !(Z.testbit_neg_r _ (n - _)) by lia.
    now rewrite !orb_false_r. }
  rewrite (Z.mod_pow2_bits_high u) by lia. cbn [orb].
  destruct (Z.ltb_spec n 16).
  { rewrite Z.mod_pow2_bits_low by lia.
    rewrite (Z.testbit_neg_r _ (n - 16)), (Z.testbit_neg_r _ (n - 24)) by lia.
    rewrite Z.shiftr_spec by lia. rewrite !orb_false_r. f_equal. lia. }
  rewrite (Z.mod_pow2_bits_high _ 8 (n - 8)) by lia. cbn [orb].
  destruct (Z.ltb_spec n 24).
  { rewrite Z.mod_pow2_bits_low by lia.
    rewrite (Z.testbit_neg_r _ (n - 24)) by lia.
    rewrite Z.shiftr_spec by lia. rewrite !orb_false_r. f_equal. lia. }
  rewrite (Z.mod_pow2_bits_high _ 8 (n - 16)) by lia. cbn [orb].
  destruct (Z.ltb_spec n 32).
  { rewrite Z.mod_pow2_bits_low by lia.
    rewrite Z.shiftr_spec by lia. f_equal. lia. }
  rewrite Z.mod_pow2_bits_high by lia.
  symmetry. destruct (Z.eq_dec u 0) as [->|Hz]; [apply Z.bits_0|].
  apply Z.bits_above_log2; [lia|].
  assert (Z.log2 u < 32) by (apply Z.log2_lt_pow2; lia). lia.
Qed.

Lemma to_signed32_mod (n : Z) :
  int_min <= n <= int_max -> to_signed32 (n mod 2 ^ 32) = n.
Proof.
  unfold int_min, int_max, to_signed32. intros Hn.
  destruct (Z.ltb_spec (n mod 2 ^ 32) (2 ^ 31)) as [Hlt|Hge].
  - destruct (Z.neg_nonneg_cases n) as [Hneg|Hpos].
    + rewrite <- (Z.mod_add n 1 (2 ^ 32)) in Hlt by lia.
      rewrite Z.mod_small in Hlt by lia. lia.
    + rewrite Z.mod_small by lia. reflexivity.
  - destruct (Z.neg_nonneg_cases n) as [Hneg|Hpos].
    + rewrite <- (Z.mod_add n 1 (2 ^ 32)) by lia.
      rewrite Z.mod_small by lia. lia.
    + rewrite Z.mod_small in Hge by lia. lia.
Qed.

Section CodecFacts.
Context `{Platform}.

Lemma struct_pack_i_length (n : Z) (b : bytes) :
  struct_pack_i n = Ok b -> length b = 4%nat.
Proof.
  unfold struct_pack_i. destruct (_ && _); [|discriminate].
  intros [= <-]. destruct byteorder; reflexivity.
Qed.

Lemma struct_pack_i_range (n : Z) (b : bytes) :
  struct_pack_i n = Ok b -> int_min <= n <= int_max.
Proof.
  unfold struct_pack_i.
  destruct (Z.leb_spec int_min n), (Z.leb_spec n int_max); cbn;
    intros; try discriminate; lia.
Qed.

Lemma struct_unpack_pack_i (n : Z) (b : bytes) :
  struct_pack_i n = Ok b -> struct_unpack_i b = Ok n.
Proof.
  intros Hp. pose proof (struct_pack_i_range _ _ Hp) as Hr.
  unfold struct_pack_i in Hp. destruct (_ && _); [|discriminate].
  injection Hp as <-.
  pose proof (Z.mod_pos_bound n (2 ^ 32) ltac:(lia)) as Hu.
  unfold struct_unpack_i.
  destruct byteorder; cbn [le_bytes4 rev app];
    rewrite le_word4_bytes by exact Hu;
    now rewrite to_signed32_mod.
Qed.
End CodecFacts.

(** ** The frame codec *)

Section FrameFacts.
Context `{Platform} {value : Type} `{Pickle value}.

Lemma pack_data_inv (v : value) (frame : bytes) :
  _pack_data v = Ok frame ->
  exists b_length b_data,
    dumps v = Ok b_data /\
    struct_pack_i (Z.of_nat (length b_data)) = Ok b_length /\
    frame = b_length ++ b_data.
Proof.
  unfold _pack_data, bind_result.
  destruct (dumps v) as [b_data|]; [|discriminate].
  destruct (struct_pack_i _) as [b_length|] eqn:Hp; [|discriminate].
  intros [= <-]. eauto.
Qed.

Lemma sock_recv_header (b_length rest : bytes) :
  length b_length = 4%nat ->
  sock_recv 4 (RecvBytes (b_length ++ rest)) = Ok b_length.
Proof.
  intros Hl. unfold sock_recv. cbn [Z.ltb Z.compare].
  change (Z.to_nat 4) with 4%nat. rewrite <- Hl.
  now rewrite take_app_length.
Qed.

(** C1: for every value the codec accepts, the frame is a 4-byte header
    followed by the serialized payload, and the receive side, reading
    the header and then the payload from the stream (whatever follows
    the frame on it), decodes to the same value. *)
Theorem pack_data_round_trip `{!PickleLaws value}
    (v : value) (frame more : bytes) :
  _pack_data v = Ok frame ->
  exists b_length b_data,
    frame = b_length ++ b_data /\
    length b_length = 4%nat /\
    dumps v = Ok b_data /\
    recv_frame (RecvBytes (frame ++ more))
               (RecvBytes (drop 4 (frame ++ more))) = Ok v.
Proof.
  intros Hp. destruct (pack_data_inv _ _ Hp) as (bl & bd & Hd & Hs & ->).
  pose proof (struct_pack_i_length _ _ Hs) as Hl.
  exists bl, bd. repeat split; try assumption.
  unfold recv_frame. rewrite <- app_assoc, (sock_recv_header _ _ Hl).
  cbn [bind_result]. rewrite (struct_unpack_pack_i _ _ Hs). cbn [bind_result].
  unfold sock_recv.
  destruct (Z.ltb_spec (Z.of_nat (length bd)) 0) as [Hneg|_]; [lia|].
  rewrite Nat2Z.id. rewrite <- Hl at 1. rewrite drop_app_length.
  rewrite take_app_length. cbn [bind_result].
  now apply loads_dumps.
Qed.

(** C3 (as amended): a frame's header encodes exactly the length of the
    payload that follows it; the receive side never compares the header
    with the number of bytes it read: whatever the second read
    delivers, cut at the announced length, goes to the deserializer,
    whose verdict is the result. *)
Theorem header_exact_and_read_unchecked (v : value) (frame : bytes) :
  _pack_data v = Ok frame ->
  exists b_data,
    dumps v = Ok b_data /\
    length (take 4 frame) = 4%nat /\
    drop 4 frame = b_data /\
    struct_unpack_i (take 4 frame) = Ok (Z.of_nat (length b_data)) /\
    forall avail : bytes,
      recv_frame (RecvBytes frame) (RecvBytes avail)
      = loads (take (length b_data) avail).
Proof.
  intros Hp. destruct (pack_data_inv _ _ Hp) as (bl & bd & Hd & Hs & ->).
  pose proof (struct_pack_i_length _ _ Hs) as Hl.
  assert (Ht : take 4 (bl ++ bd) = bl)
    by (rewrite <- Hl; apply take_app_length).
  exists bd. rewrite Ht. repeat split; try assumption.
  - rewrite <- Hl. apply drop_app_length.
  - now apply struct_unpack_pack_i.
  - intros avail. unfold recv_frame.
    rewrite (sock_recv_header _ _ Hl). cbn [bind_result].
    rewrite (struct_unpack_pack_i _ _ Hs). cbn [bind_result].
    unfold sock_recv.
    destruct (Z.ltb_spec (Z.of_nat (length bd)) 0) as [Hneg|_]; [lia|].
    now rewrite Nat2Z.id.
Qed.

End FrameFacts.

(** ** The session *)

Section SessionFacts.
Context `{Platform} {value : Type} `{Pickle value}.

Implicit Types (s : System value) (tid : thread_id) (t : NetManagerThread)
  (c : sock) (a : answers) (p : phase).

(** *** What the small updates leave alone *)

Lemma sock_close_net c s : net (sock_close c s) = net s.
Proof. unfold sock_close. now destruct (bool_decide _). Qed.

Lemma sock_close_threads c s : threads (sock_close c s) = threads s.
Proof. unfold sock_close. now destruct (bool_decide _). Qed.

Lemma sock_close_trace c s : trace (sock_close c s) = trace s.
Proof. unfold sock_close. now destruct (bool_decide _). Qed.

Lemma sock_close_closed c s : c ∈ closed (sock_close c s).
Proof.
  unfold sock_close. destruct (bool_decide_reflect (c ∈ closed s)); [done|].
  cbn. apply list_elem_of_here.
Qed.

Lemma sock_close_mono c c' s : c' ∈ closed s -> c' ∈ closed (sock_close c s).
Proof.
  unfold sock_close. destruct (bool_decide _); [done|].
  cbn. intros. now apply list_elem_of_further.
Qed.

Lemma sock_close_again c s : c ∈ closed s -> sock_close c s = s.
Proof. intros Hc. unfold sock_close. now rewrite bool_decide_eq_true_2. Qed.

Lemma thread_phase_set_phase tid t p s :
  (tid < length (threads s))%nat ->
  thread_phase tid (set_phase tid t p s) = Some p.
Proof.
  intros Hlt. unfold thread_phase, set_phase. cbn.
  now rewrite list_lookup_insert_eq.
Qed.

Lemma thread_alive_phase tid s :
  thread_alive tid s =
  match thread_phase tid s with
  | Some (PDone _) | None => false
  | Some _ => true
  end.
Proof.
  unfold thread_alive, thread_phase, is_alive.
  destruct (threads s !! tid) as [t|]; [|reflexivity]. cbn.
  now destruct (t_phase t).
Qed.

(** *** [send] *)

(** C8: with no socket held, [send] returns 1, the "not connected"
    status; nothing of the session changes, the only effect is the
    warning in the log. *)
Theorem send_not_connected s (data : value) (w : option exn) :
  client (net s) = None ->
  snd (send data w s) = PyInt 1 /\
  net (fst (send data w s)) = net s /\
  threads (fst (send data w s)) = threads s /\
  closed (fst (send data w s)) = closed s /\
  trace (fst (send data w s)) = EvLog Warning MsgNotConnected :: trace s.
Proof.
  intros Hc. unfold send. rewrite Hc. cbn. repeat split.
Qed.

Lemma send_connected_ok s c (data : value) (frame : bytes) :
  client (net s) = Some c -> _pack_data data = Ok frame ->
  send data None s = (emit (EvSendAll c frame) s, PyInt 0).
Proof. intros Hc Hp. unfold send. now rewrite Hc, Hp. Qed.

Lemma send_connected_raise s c (data : value) (frame : bytes) (e : exn) :
  client (net s) = Some c -> _pack_data data = Ok frame ->
  send data (Some e) s = (emit (EvLog Warning (MsgSendFailed e)) s, PyNone).
Proof. intros Hc Hp. unfold send. now rewrite Hc, Hp. Qed.

(** *** The receive loop *)

Lemma leave_recv_loop_spec tid t c s :
  (tid < length (threads s))%nat ->
  let s' := leave_recv_loop tid t c s in
  thread_phase tid s' = Some (PDone ExitRecvLoop) /\
  c ∈ closed s' /\
  client (net s') = None /\
  _stop_event (net s') = _stop_event (net s).
Proof.
  intros Hlt. unfold leave_recv_loop. repeat split.
  - apply thread_phase_set_phase. cbn. now rewrite sock_close_threads.
  - cbn. apply sock_close_closed.
  - cbn. now rewrite sock_close_net.
Qed.

(** C5: a step of the receive loop either stays in the loop (stop flag
    clear and the iteration decoded a frame or timed out) or leaves it;
    it leaves exactly when the stop flag is set or the iteration raised
    anything but a time-out (reset, other I/O error, decode failure),
    and whenever it leaves, the socket has been closed and the
    session's reference cleared, so [is_connected] is false. *)
Theorem recv_loop_exit_cleans_up tid t c a s :
  threads s !! tid = Some t ->
  t_phase t = PRecv c ->
  let s' := thread_step tid a s in
  let left := thread_phase tid s' <> Some (PRecv c) in
  (left <->
     _stop_event (net s) = true \/
     exists e, recv_frame (a_recv_hdr a) (a_recv_body a) = Raise e /\
               is_timeout e = false) /\
  (left ->
     thread_phase tid s' = Some (PDone ExitRecvLoop) /\
     thread_alive tid s' = false /\
     c ∈ closed s' /\
     client (net s') = None /\
     is_connected s' = false).
Proof.
  intros Ht Hp.
  assert (Hlt : (tid < length (threads s))%nat) by (eapply lookup_lt_Some; eassumption).
  assert (Hstay : thread_phase tid s = Some (PRecv c))
    by (unfold thread_phase; rewrite Ht; cbn; now rewrite Hp).
  assert (Hleave : forall s0, threads s0 = threads s ->
            let s' := leave_recv_loop tid t c s0 in
            thread_phase tid s' <> Some (PRecv c) /\
            thread_phase tid s' = Some (PDone ExitRecvLoop) /\
            thread_alive tid s' = false /\
            c ∈ closed s' /\ client (net s') = None /\ is_connected s' = false).
  { intros s0 Hs0.
    destruct (leave_recv_loop_spec tid t c s0) as (Hph & Hcl & Hn & _);
      [now rewrite Hs0|].
    cbn zeta. rewrite thread_alive_phase, Hph. unfold is_connected. rewrite Hn.
    repeat split; try assumption. discriminate. }
  cbn zeta. unfold thread_step. rewrite Ht, Hp. unfold recv_step.
  destruct (_stop_event (net s)) eqn:Hstop.
  { destruct (Hleave s eq_refl) as (Hl & Hrest). split; [|intros _; exact Hrest].
    split; [intros _; now left | intros _; exact Hl]. }
  destruct (recv_frame (a_recv_hdr a) (a_recv_body a)) as [data|e] eqn:Hr.
  { split.
    - split.
      + intros Hl. exfalso. apply Hl. exact Hstay.
      + intros [Hf|(e & He & _)]; discriminate.
    - intros Hl. exfalso. apply Hl. exact Hstay. }
  destruct (is_timeout e) eqn:Hto.
  { split.
    - split.
      + intros Hl. exfalso. apply Hl. exact Hstay.
      + intros [Hf|(e' & [= <-] & Hf)]; [discriminate|congruence].
    - intros Hl. exfalso. apply Hl. exact Hstay. }
  assert (Hgoal : forall s0, threads s0 = threads s ->
            let s' := leave_recv_loop tid t c s0 in
            (thread_phase tid s' <> Some (PRecv c) <->
               false = true \/ exists e0, Raise (A:=value) e = Raise e0 /\ is_timeout e0 = false) /\
            (thread_phase tid s' <> Some (PRecv c) ->
               thread_phase tid s' = Some (PDone ExitRecvLoop) /\
               thread_alive tid s' = false /\
               c ∈ closed s' /\ client (net s') = None /\ is_connected s' = false)).
  { intros s0 Hs0. destruct (Hleave s0 Hs0) as (Hl & Hrest).
    split; [|intros _; exact Hrest].
    split; [intros _; right; eauto | intros _; exact Hl]. }
  destruct (is_ConnectionResetError e); [now apply Hgoal|].
  destruct (is_OSError e); now apply Hgoal.
Qed.

(** *** Steps of the thread under a set stop flag *)

Lemma thread_step_frame tid a s :
  _stop_event (net (thread_step tid a s)) = _stop_event (net s) /\
  _listen_thread (net (thread_step tid a s)) = _listen_thread (net s) /\
  as_server (net (thread_step tid a s)) = as_server (net s) /\
  host (net (thread_step tid a s)) = host (net s) /\
  port (net (thread_step tid a s)) = port (net s) /\
  length (threads (thread_step tid a s)) = length (threads s) /\
  (forall c, c ∈ closed s -> c ∈ closed (thread_step tid a s)).
Proof.
  unfold thread_step, run_start, accept_step, recv_step, leave_recv_loop,
    established, connect_failed, set_phase.
  repeat case_match; cbn; rewrite ?sock_close_net, ?sock_close_threads,
    ?length_insert; repeat split; auto using sock_close_mono.
Qed.

Lemma stopped_step tid a s p :
  _stop_event (net s) = true ->
  thread_phase tid s = Some p ->
  let s' := thread_step tid a s in
  exists p', thread_phase tid s' = Some p' /\
             (steps_left p' <= steps_left p - 1)%nat /\
             (client_closed_or_owned tid s -> client_closed_or_owned tid s').
Proof.
  intros Hstop Hp.
  unfold thread_phase in Hp.
  destruct (threads s !! tid) as [t|] eqn:Ht; [|discriminate].
  injection Hp as Hp.
  assert (Hlt : (tid < length (threads s))%nat) by (eapply lookup_lt_Some; eassumption).
  assert (Hkeep : forall c, client_closed_or_owned tid s ->
                            (forall c', t_phase t <> PRecv c') ->
                            client (net s) = Some c -> c ∈ closed s).
  { intros c Hown Hn Hc. destruct (Hown c Hc) as [|Hph]; [assumption|].
    unfold thread_phase in Hph. rewrite Ht in Hph. cbn in Hph.
    injection Hph as Hph. now apply Hn in Hph. }
  cbn zeta. unfold thread_step. rewrite Ht.
  destruct (t_phase t) as [| server | c | ex] eqn:Hph; subst p.
  - (* before the first statement *)
    unfold run_start, connect_failed, established.
    repeat case_match; eexists;
      (split; [apply thread_phase_set_phase; cbn; assumption|]);
      (split; [cbn; lia|]);
      intros Hown c0 Hc0; cbn in Hc0;
      try (injection Hc0 as <-; right;
           apply thread_phase_set_phase; cbn; assumption);
      left; cbn; now apply Hkeep.
  - (* at the test of the accept loop *)
    unfold accept_step. rewrite Hstop. eexists.
    split; [apply thread_phase_set_phase; cbn; assumption|].
    split; [cbn; lia|].
    intros Hown c0 Hc0. left. cbn in *. now apply Hkeep.
  - (* at the test of the receive loop *)
    unfold recv_step. rewrite Hstop.
    destruct (leave_recv_loop_spec tid t c s Hlt) as (Hp' & _ & Hn & _).
    eexists. split; [exact Hp'|]. split; [cbn; lia|].
    intros _ c0 Hc0. congruence.
  - (* returned *)
    exists (PDone ex). split; [unfold thread_phase; rewrite Ht; cbn; now rewrite Hph|].
    split; [cbn; lia|]. auto.
Qed.

Lemma stopped_two_steps tid a1 a2 s :
  _stop_event (net s) = true ->
  thread_alive tid (thread_step tid a2 (thread_step tid a1 s)) = false.
Proof.
  intros Hstop.
  destruct (thread_phase tid s) as [p|] eqn:Hp.
  - destruct (stopped_step tid a1 s p Hstop Hp) as (p1 & Hp1 & Hm1 & _).
    destruct (thread_step_frame tid a1 s) as (Hs1 & _).
    destruct (stopped_step tid a2 (thread_step tid a1 s) p1) as (p2 & Hp2 & Hm2 & _);
      [congruence | assumption |].
    rewrite thread_alive_phase, Hp2.
    destruct p2; try reflexivity; destruct p, p1; cbn in *; lia.
  - unfold thread_phase in Hp.
    destruct (threads s !! tid) as [t|] eqn:Ht; [discriminate|].
    unfold thread_step at 2. rewrite Ht.
    unfold thread_step. rewrite Ht.
    unfold thread_alive. now rewrite Ht.
Qed.

Lemma join_stopped tid env : forall s p,
  _stop_event (net s) = true ->
  thread_phase tid s = Some p ->
  (steps_left p <= length env)%nat ->
  client_closed_or_owned tid s ->
  exists s', join env tid s = Some s' /\
             _stop_event (net s') = true /\
             thread_alive tid s' = false /\
             _listen_thread (net s') = _listen_thread (net s) /\
             (forall c, c ∈ closed s -> c ∈ closed s') /\
             (forall c, client (net s') = Some c -> c ∈ closed s').
Proof.
  induction env as [|a env IH]; intros s p Hstop Hp Hlen Hown.
  - destruct p; cbn in Hlen; try lia.
    exists s. cbn. rewrite thread_alive_phase, Hp.
    repeat split; auto.
    intros c Hc. destruct (Hown c Hc) as [|Hq]; [assumption|congruence].
  - cbn [join]. destruct (thread_alive tid s) eqn:Hal.
    + destruct (stopped_step tid a s p Hstop Hp) as (p' & Hp' & Hm & Hown').
      specialize (Hown' Hown).
      destruct (thread_step_frame tid a s) as (Hs1 & Hl1 & _ & _ & _ & _ & Hc1).
      destruct (IH (thread_step tid a s) p') as (s' & Hj & Hs & Hd & Hl & Hc & Hk);
        [congruence | assumption | cbn in Hlen; lia | assumption |].
      exists s'. repeat split; auto; congruence.
    + exists s. repeat split; auto.
      intros c Hc. destruct (Hown c Hc) as [|Hq]; [assumption|].
      rewrite thread_alive_phase, Hq in Hal. discriminate.
Qed.

(** *** [disconnect] *)

(** C7: while the session's thread is alive and takes no step,
    [disconnect] does not return; given the environment's answers for
    two steps of the thread, it returns; then the stop flag is set, the
    socket the session held is closed, the session's thread is no longer
    alive, and a further [disconnect] returns at once and changes
    nothing. *)
Theorem disconnect_spec s (env : list answers) :
  (2 <= length env)%nat ->
  (forall tid, _listen_thread (net s) = Some tid ->
               thread_alive tid s = true -> disconnect [] s = None) /\
  exists s',
    disconnect env s = Some s' /\
    _stop_event (net s') = true /\
    (forall c, client (net s) = Some c -> c ∈ closed s') /\
    (forall tid, _listen_thread (net s) = Some tid ->
                 thread_alive tid s' = false) /\
    (forall env', disconnect env' s' = Some s').
Proof.
  intros Hlen. split.
  { intros tid Hl Hal. unfold disconnect.
    assert (Hsame : forall x : System value,
              _listen_thread (net x) = Some tid ->
              thread_alive tid x = true ->
              match _listen_thread (net x) with
              | Some tid => if thread_alive tid x then join [] tid x else Some x
              | None => Some x
              end = None).
    { intros x Hx Hy. rewrite Hx, Hy. cbn. now rewrite Hy. }
    apply Hsame.
    - destruct (client (net (set_stop s))); rewrite ?sock_close_net; exact Hl.
    - unfold thread_alive in *.
      destruct (client (net (set_stop s))); rewrite ?sock_close_threads;
        exact Hal. }
  unfold disconnect.
  set (s1 := match client (net (set_stop s)) with
             | Some c => sock_close c (set_stop s)
             | None => set_stop s
             end).
  assert (Hnet : _stop_event (net s1) = true /\
                 _listen_thread (net s1) = _listen_thread (net s) /\
                 client (net s1) = client (net s) /\
                 threads s1 = threads s).
  { subst s1. cbn. destruct (client (net s)) eqn:E;
      rewrite ?sock_close_net, ?sock_close_threads; cbn; auto. }
  destruct Hnet as (Hstop & Hlt & Hcl & Hth).
  assert (Hclosed : forall c, client (net s1) = Some c -> c ∈ closed s1).
  { subst s1. cbn. destruct (client (net s)) as [c0|] eqn:Hc0.
    - rewrite sock_close_net. cbn. rewrite Hc0. intros c [= <-].
      apply sock_close_closed.
    - cbn. congruence. }
  assert (Hidem : forall s', _stop_event (net s') = true ->
            (forall c, client (net s') = Some c -> c ∈ closed s') ->
            (forall tid, _listen_thread (net s') = Some tid ->
                         thread_alive tid s' = false) ->
            forall env', disconnect env' s' = Some s').
  { intros s' Hs Hc Hd env'. unfold disconnect.
    assert (Hid : set_stop s' = s').
    { unfold set_stop. destruct s' as [[] ? ? ? ?]. cbn in *. now subst. }
    rewrite Hid.
    assert (Hid2 : match client (net s') with
                   | Some c => sock_close c s'
                   | None => s'
                   end = s').
    { destruct (client (net s')) as [c|] eqn:E; [|reflexivity].
      apply sock_close_again. now apply Hc. }
    rewrite Hid2.
    destruct (_listen_thread (net s')) as [tid|] eqn:E; [|reflexivity].
    now rewrite (Hd tid eq_refl). }
  destruct (_listen_thread (net s1)) as [tid|] eqn:Hl1.
  - destruct (thread_alive tid s1) eqn:Hal.
    + rewrite thread_alive_phase in Hal.
      destruct (thread_phase tid s1) as [p|] eqn:Hp; [|discriminate].
      destruct (join_stopped tid env s1 p) as (s' & Hj & Hs & Hd & Hl & Hc & Hk);
        [assumption | exact Hp | destruct p; cbn; lia | |].
      { intros c Hc. left. now apply Hclosed. }
      exists s'. repeat split; auto.
      * intros c Hc0. apply Hc, Hclosed. congruence.
      * intros tid' Ht'. congruence.
      * apply Hidem; auto. intros tid' Ht'.
        assert (tid' = tid) by congruence. now subst.
    + exists s1. repeat split; auto.
      * intros c Hc0. apply Hclosed. congruence.
      * intros tid' Ht'. assert (tid' = tid) by congruence. now subst.
      * apply Hidem; auto. intros tid' Ht'.
        assert (tid' = tid) by congruence. now subst.
  - exists s1. repeat split; auto.
    + intros c Hc0. apply Hclosed. congruence.
    + intros tid' Ht'. congruence.
    + apply Hidem; auto. intros tid' Ht'. congruence.
Qed.

(** *** What one step of a thread does to the shared state *)

Lemma with_phase_id t : with_phase t (t_phase t) = t.
Proof. now destruct t. Qed.

Lemma callbacks_of_app tid (evs tr : list event) :
  callbacks_of tid (evs ++ tr) = callbacks_of tid tr ++ callbacks_of tid evs.
Proof. unfold callbacks_of. now rewrite omap_app, rev_app_distr. Qed.

Lemma accepts_of_app tid (evs tr : list event) :
  accepts_of tid (evs ++ tr) = accepts_of tid evs ++ accepts_of tid tr.
Proof. unfold accepts_of. now rewrite omap_app. Qed.

Ltac trace_witness :=
  first [ exact (eq_refl ([] ++ _))
        | exact (eq_refl ([_] ++ _))
        | exact (eq_refl ([_; _] ++ _))
        | exact (eq_refl ([_; _; _] ++ _))
        | exact (eq_refl ([_; _; _; _] ++ _)) ].

Ltac effect_done tid Hph :=
  cbn; rewrite ?sock_close_net; cbn;
  rewrite ?(bool_decide_eq_true_2 (tid = tid) eq_refl); cbn;
  split_and!; try done;
  try (intros ? ?; rewrite ?bool_decide_eq_false_2 by congruence; done);
  try (by left);
  try (by rewrite app_nil_r);
  try (repeat constructor; done);
  try (unfold is_alive; rewrite Hph; done);
  try naive_solver.

Ltac effect_moved tid Hph :=
  eexists _, _;
  split; [cbn; rewrite ?sock_close_threads; reflexivity|];
  split; [cbn; rewrite ?sock_close_trace; trace_witness|];
  effect_done tid Hph.

Ltac effect_stayed tid t Ht Hph :=
  exists (t_phase t); eexists;
  split; [cbn; rewrite with_phase_id;
          symmetry; apply list_insert_id; exact Ht|];
  rewrite Hph;
  split; [cbn; trace_witness|];
  effect_done tid Hph.

Lemma thread_step_effect tid a s t :
  threads s !! tid = Some t ->
  let s' := thread_step tid a s in
  exists p' evs,
    threads s' = <[tid := with_phase t p']> (threads s) /\
    trace s' = evs ++ trace s /\
    expected_callbacks p'
      = expected_callbacks (t_phase t) ++ callbacks_of tid evs /\
    (forall tid', tid' <> tid ->
       callbacks_of tid' evs = [] /\ accepts_of tid' evs = []) /\
    (accepts_of tid evs = [] \/
     _stop_event (net s) = false /\ exists server, t_phase t = PAccept server) /\
    Forall (addr_event_ok (t_host t) (t_port t)) evs /\
    (client (net s') = client (net s) /\
       (p' = t_phase t \/ forall c, t_phase t <> PRecv c /\ p' <> PRecv c)
     \/ (exists c, client (net s') = Some c /\ p' = PRecv c)
     \/ client (net s') = None /\ forall c, p' <> PRecv c) /\
    (forall c, p' = PRecv c ->
       t_phase t = PRecv c \/
       t_phase t = PStart /\ t_as_server t = false \/
       _stop_event (net s) = false /\ exists server, t_phase t = PAccept server) /\
    (p' = PDone ExitRecvLoop ->
       t_phase t = PDone ExitRecvLoop \/ exists c, t_phase t = PRecv c) /\
    (is_alive t = false -> s' = s).
Proof.
  intros Ht. cbn zeta. unfold thread_step. rewrite Ht.
  destruct (t_phase t) as [| server | c | ex] eqn:Hph.
  - unfold run_start, connect_failed, established.
    repeat case_match; effect_moved tid Hph.
  - unfold accept_step, connect_failed, established.
    destruct (_stop_event (net s)) eqn:Hstop; [effect_moved tid Hph|].
    destruct (a_accept a) as [e|]; [|effect_moved tid Hph].
    destruct (is_BlockingIOError e);
      [effect_stayed tid t Ht Hph | effect_moved tid Hph].
  - unfold recv_step, leave_recv_loop.
    destruct (_stop_event (net s)) eqn:Hstop; [effect_moved tid Hph|].
    destruct (recv_frame _ _) as [data|e]; [effect_stayed tid t Ht Hph|].
    destruct (is_timeout e); [effect_stayed tid t Ht Hph|].
    destruct (is_ConnectionResetError e); [effect_moved tid Hph|].
    destruct (is_OSError e); effect_moved tid Hph.
  - effect_stayed tid t Ht Hph.
Qed.

(** *** Generic preservation along executions *)

Lemma join_preserves (P : System value -> Prop) tid :
  (forall a s, P s -> P (thread_step tid a s)) ->
  forall env s s', P s -> join env tid s = Some s' -> P s'.
Proof.
  intros Hstep. induction env as [|a env IH]; intros s s' HP; cbn [join].
  - destruct (thread_alive tid s); [discriminate|]. now intros [= <-].
  - destruct (thread_alive tid s); [|now intros [= <-]].
    apply IH. now apply Hstep.
Qed.

Lemma join_not_alive tid : forall env s s',
  join env tid s = Some s' -> thread_alive tid s' = false.
Proof.
  induction env as [|a env IH]; intros s s'; cbn [join].
  - destruct (thread_alive tid s) eqn:E; [discriminate|]. now intros [= <-].
  - destruct (thread_alive tid s) eqn:E; [|now intros [= <-]]. apply IH.
Qed.

Lemma exec_all_preserves (P : System value -> Prop) :
  (forall o s s', P s -> exec o s = Some s' -> P s') ->
  forall os s s', P s -> exec_all os s = Some s' -> P s'.
Proof.
  intros Hstep. induction os as [|o os IH]; intros s s' HP; cbn [exec_all].
  - now intros [= <-].
  - destruct (exec o s) as [s1|] eqn:E; [|discriminate].
    apply IH. eapply Hstep; eassumption.
Qed.

Lemma exec_all_app (os1 os2 : list (op value)) s :
  exec_all (os1 ++ os2) s =
  match exec_all os1 s with
  | Some s1 => exec_all os2 s1
  | None => None
  end.
Proof.
  revert s. induction os1 as [|o os1 IH]; intros s; cbn; [reflexivity|].
  destruct (exec o s); [apply IH | reflexivity].
Qed.

Lemma reachable_step srv h pt o s s' :
  reachable srv h pt s -> exec o s = Some s' -> reachable srv h pt s'.
Proof.
  intros [os Hos] Hex. exists (os ++ [o]).
  rewrite exec_all_app, Hos. cbn. now rewrite Hex.
Qed.

(** *** The session invariant *)

Lemma session_inv_init srv h pt :
  session_inv (value := value) srv (__init__ srv h pt).
Proof.
  split; cbn; try done.
Qed.

(** Updates that touch neither the threads, nor the fields the
    invariant reads, nor the callbacks and accepts in the trace. *)
Lemma session_inv_same srv s s' :
  as_server (net s') = as_server (net s) ->
  _listen_thread (net s') = _listen_thread (net s) ->
  client (net s') = client (net s) ->
  threads s' = threads s ->
  (forall tid, callbacks_of tid (trace s') = callbacks_of tid (trace s) /\
               accepts_of tid (trace s') = accepts_of tid (trace s)) ->
  session_inv srv s -> session_inv srv s'.
Proof.
  intros Hr Hl Hc Ht Htr [I1 I2 I3 I4 I5 I6].
  split; unfold thread_phase in *; rewrite ?Hr, ?Hl, ?Hc, ?Ht; try assumption.
  - intros tid t Hlk. rewrite (proj1 (Htr tid)). now apply I5.
  - intros tid Hlen. destruct (Htr tid) as [-> ->]. now apply I6.
Qed.

Lemma session_inv_thread_step srv tid a s :
  session_inv srv s -> session_inv srv (thread_step tid a s).
Proof.
  intros Hinv.
  destruct (threads s !! tid) as [t|] eqn:Ht;
    [|unfold thread_step; now rewrite Ht].
  destruct (thread_step_effect tid a s t Ht)
    as (p' & evs & Hth & Htr & Hcb & Hoth & _ & _ & Hcl & _ & _ & Hdead).
  destruct (is_alive t) eqn:Hal; [|now rewrite (Hdead eq_refl)].
  destruct (thread_step_frame tid a s) as (_ & Hl & Hr & _ & _ & Hlen & _).
  destruct Hinv as [I1 I2 I3 I4 I5 I6].
  pose proof (I3 tid t Ht Hal) as Hlisten.
  assert (Hlt : (tid < length (threads s))%nat) by (eapply lookup_lt_Some; eassumption).
  assert (Hph' : thread_phase tid (thread_step tid a s) = Some p').
  { unfold thread_phase. rewrite Hth, list_lookup_insert_eq by assumption.
    reflexivity. }
  split.
  - congruence.
  - intros tid' t'. rewrite Hth.
    destruct (decide (tid = tid')) as [<-|Hne].
    + rewrite list_lookup_insert_eq by assumption. intros [= <-].
      cbn. now apply (I2 tid t).
    + rewrite list_lookup_insert_ne by assumption. apply I2.
  - intros tid' t'. rewrite Hth, Hl.
    destruct (decide (tid = tid')) as [<-|Hne]; [done|].
    rewrite list_lookup_insert_ne by assumption. apply I3.
  - intros c Hc. exists tid. rewrite Hl. split; [assumption|].
    rewrite Hph'. f_equal.
    destruct Hcl as [[Hsame Hp]|[(c0 & Hc0 & ->)|[Hnone _]]].
    + rewrite Hsame in Hc. destruct (I4 c Hc) as (tid0 & Hl0 & Hp0).
      assert (tid0 = tid) by congruence. subst tid0.
      unfold thread_phase in Hp0. rewrite Ht in Hp0. cbn in Hp0.
      injection Hp0 as Hp0.
      destruct Hp as [->|Hp]; [assumption|]. now destruct (Hp c).
    + congruence.
    + congruence.
  - intros tid' t'. rewrite Hth, Htr, callbacks_of_app.
    destruct (decide (tid = tid')) as [<-|Hne].
    + rewrite list_lookup_insert_eq by assumption. intros [= <-]. cbn.
      rewrite Hcb. f_equal. now apply I5.
    + rewrite list_lookup_insert_ne by assumption. intros Hlk.
      destruct (Hoth tid') as [-> _]; [congruence|].
      rewrite app_nil_r. now apply I5.
  - intros tid' Hge. rewrite Hlen in Hge.
    rewrite Htr, callbacks_of_app, accepts_of_app.
    destruct (Hoth tid') as [-> ->]; [lia|].
    rewrite app_nil_r. cbn. now apply I6.
Qed.

Lemma session_inv_connect srv cb s :
  session_inv srv s -> session_inv srv (connect cb s).
Proof.
  intros Hinv. unfold connect.
  set (spawn := match _listen_thread (net s) with
                | None => true
                | Some tid => negb (thread_alive tid s)
                end).
  destruct spawn eqn:Hspawn; [|assumption].
  assert (Hnone : forall tid t, threads s !! tid = Some t -> is_alive t = false).
  { intros tid t Ht. destruct (is_alive t) eqn:Hal; [|reflexivity].
    pose proof (inv_alive _ _ Hinv tid t Ht Hal) as Hl.
    subst spawn. rewrite Hl in Hspawn. unfold thread_alive in Hspawn.
    rewrite Ht, Hal in Hspawn. discriminate. }
  destruct Hinv as [I1 I2 I3 I4 I5 I6].
  split; cbn.
  - assumption.
  - intros tid t Hlk. apply lookup_app_Some in Hlk as [Hlk|[_ Hlk]].
    + now apply (I2 tid).
    + apply list_lookup_singleton_Some in Hlk as [_ <-]. cbn. assumption.
  - intros tid t Hlk Hal. apply lookup_app_Some in Hlk as [Hlk|[Hge Hlk]].
    + rewrite (Hnone tid t Hlk) in Hal. discriminate.
    + apply list_lookup_singleton_Some in Hlk as [Hz _].
      f_equal. lia.
  - intros c Hc. destruct (I4 c Hc) as (tid0 & _ & Hp0).
    unfold thread_phase in Hp0.
    destruct (threads s !! tid0) as [t0|] eqn:Ht0; [|discriminate].
    cbn in Hp0. injection Hp0 as Hp0.
    pose proof (Hnone tid0 t0 Ht0) as Hd. unfold is_alive in Hd.
    rewrite Hp0 in Hd. discriminate.
  - intros tid t Hlk. apply lookup_app_Some in Hlk as [Hlk|[Hge Hlk]].
    + now apply I5.
    + apply list_lookup_singleton_Some in Hlk as [_ <-]. cbn.
      now apply I6.
  - intros tid Hge. rewrite length_app in Hge. cbn in Hge. apply I6. lia.
Qed.

Lemma session_inv_exec srv o s s' :
  session_inv srv s -> exec o s = Some s' -> session_inv srv s'.
Proof.
  intros Hinv. destruct o as [cb|env|data w| |tid a]; cbn [exec].
  - intros [= <-]. now apply session_inv_connect.
  - unfold disconnect.
    set (s1 := match client (net (set_stop s)) with
               | Some c => sock_close c (set_stop s)
               | None => set_stop s
               end).
    assert (H1 : session_inv srv s1).
    { apply (session_inv_same srv s); [..|assumption]; subst s1; cbn;
        destruct (client (net s)) eqn:E;
        rewrite ?sock_close_net, ?sock_close_threads, ?sock_close_trace;
        cbn; auto. }
    destruct (_listen_thread (net s1)) as [tid|]; [|now intros [= <-]].
    destruct (thread_alive tid s1); [|now intros [= <-]].
    apply join_preserves; [|assumption].
    intros a s0. apply session_inv_thread_step.
  - intros [= <-]. unfold send.
    destruct (client (net s)); [destruct (bind_result _ _)|];
      cbn; (apply (session_inv_same srv s); [..|assumption]; cbn; auto).
  - intros [= <-]. unfold recv.
    destruct (data_queue (net s)); cbn; [assumption|].
    apply (session_inv_same srv s); [..|assumption]; cbn; auto.
  - intros [= <-]. now apply session_inv_thread_step.
Qed.

Lemma reachable_session_inv srv h pt s :
  reachable srv h pt s -> session_inv srv s.
Proof.
  intros [os Hos].
  eapply (exec_all_preserves (session_inv srv)); [|apply session_inv_init|exact Hos].
  intros o s0 s1. apply session_inv_exec.
Qed.

Ltac callbacks_after tid Hcb :=
  unfold callbacks_of in *; cbn;
  rewrite ?(bool_decide_eq_true_2 (tid = tid) eq_refl); cbn;
  rewrite ?Hcb; reflexivity.

(** What one step adds to the callbacks a thread has made, read off the
    environment's answers. *)
Lemma thread_step_callbacks tid t a s :
  threads s !! tid = Some t ->
  callbacks_of tid (trace s) = expected_callbacks (t_phase t) ->
  let s' := thread_step tid a s in
  match t_phase t with
  | PStart =>
      match setup_raises (t_as_server t) a with
      | Some e =>
          thread_phase tid s' = Some (PDone (ExitFailed e)) /\
          callbacks_of tid (trace s') = [Some e]
      | None =>
          if t_as_server t then
            thread_phase tid s' = Some (PAccept (next_sock s)) /\
            callbacks_of tid (trace s') = []
          else
            thread_phase tid s' = Some (PRecv (next_sock s)) /\
            callbacks_of tid (trace s') = [None]
      end
  | PAccept server =>
      if _stop_event (net s) then
        thread_phase tid s' = Some (PDone ExitShutdown) /\
        callbacks_of tid (trace s') = []
      else
        match a_accept a with
        | None =>
            thread_phase tid s' = Some (PRecv (next_sock s)) /\
            callbacks_of tid (trace s') = [None]
        | Some e =>
            if is_BlockingIOError e then
              thread_phase tid s' = Some (PAccept server) /\
              callbacks_of tid (trace s') = []
            else
              thread_phase tid s' = Some (PDone (ExitFailed e)) /\
              callbacks_of tid (trace s') = [Some e]
        end
  | PRecv _ | PDone _ =>
      callbacks_of tid (trace s') = callbacks_of tid (trace s)
  end.
Proof.
  intros Ht Hcb. cbn zeta.
  assert (Hlt : (tid < length (threads s))%nat) by (eapply lookup_lt_Some; eassumption).
  assert (Hset : forall p (x : System value), threads x = threads s ->
            thread_phase tid (set_phase tid t p x) = Some p).
  { intros p x Hx. apply thread_phase_set_phase. now rewrite Hx. }
  assert (Hsame : thread_phase tid s = Some (t_phase t))
    by (unfold thread_phase; now rewrite Ht).
  unfold thread_step. rewrite Ht.
  destruct (t_phase t) as [| server | c | ex] eqn:Hph; cbn in Hcb.
  - unfold setup_raises, run_start, connect_failed, established.
    destruct (a_socket a) as [e|];
      [split; [now apply Hset | callbacks_after tid Hcb]|].
    destruct (t_as_server t).
    + destruct (a_bind a) as [e|];
        [split; [now apply Hset | callbacks_after tid Hcb]|].
      destruct (a_listen a) as [e|];
        (split; [now apply Hset | callbacks_after tid Hcb]).
    + destruct (a_connect a) as [e|];
        (split; [now apply Hset | callbacks_after tid Hcb]).
  - unfold accept_step, connect_failed, established.
    destruct (_stop_event (net s));
      [split; [now apply Hset | callbacks_after tid Hcb]|].
    destruct (a_accept a) as [e|];
      [|split; [now apply Hset | callbacks_after tid Hcb]].
    destruct (is_BlockingIOError e).
    + split; [exact Hsame | callbacks_after tid Hcb].
    + split; [now apply Hset | callbacks_after tid Hcb].
  - unfold recv_step, leave_recv_loop.
    repeat case_match; unfold callbacks_of; cbn;
      rewrite ?sock_close_trace; cbn; reflexivity.
  - reflexivity.
Qed.


(** C6: in every reachable state at most one thread is alive, the
    session holds a socket only while that thread is in the receive
    loop on it, and [connect] while the session's thread is alive
    returns the state unchanged (no thread object, no event). *)
Theorem connect_while_alive_noop srv h pt s :
  reachable srv h pt s ->
  (forall cb tid, _listen_thread (net s) = Some tid ->
                  thread_alive tid s = true -> connect cb s = s) /\
  (forall i j, thread_alive i s = true -> thread_alive j s = true -> i = j) /\
  (forall cb i j, thread_alive i (connect cb s) = true ->
                  thread_alive j (connect cb s) = true -> i = j) /\
  (forall c, client (net s) = Some c ->
             exists tid, thread_alive tid s = true /\
                         thread_phase tid s = Some (PRecv c)).
Proof.
  intros Hreach.
  assert (Hone : forall s0 : System value, session_inv srv s0 ->
            forall i j, thread_alive i s0 = true -> thread_alive j s0 = true -> i = j).
  { intros s0 Hinv i j Hi Hj. unfold thread_alive in *.
    destruct (threads s0 !! i) as [ti|] eqn:Eti; [|discriminate].
    destruct (threads s0 !! j) as [tj|] eqn:Etj; [|discriminate].
    pose proof (inv_alive _ _ Hinv i ti Eti Hi).
    pose proof (inv_alive _ _ Hinv j tj Etj Hj). congruence. }
  pose proof (reachable_session_inv _ _ _ _ Hreach) as Hinv.
  split_and!.
  - intros cb tid Hl Hal. unfold connect. now rewrite Hl, Hal.
  - now apply Hone.
  - intros cb. apply Hone. now apply session_inv_connect.
  - intros c Hc. destruct (inv_client _ _ Hinv c Hc) as (tid & _ & Hp).
    exists tid. split; [|assumption]. now rewrite thread_alive_phase, Hp.
Qed.

(** *** After [disconnect] *)

Lemma stopped_inv_same n s s' :
  _stop_event (net s') = true ->
  as_server (net s') = as_server (net s) ->
  client (net s') = client (net s) ->
  (forall tid, thread_phase tid s' = thread_phase tid s \/
               thread_phase tid s' = Some PStart) ->
  (forall tid, accepts_of tid (trace s') = accepts_of tid (trace s)) ->
  stopped_inv n s -> stopped_inv n s'.
Proof.
  intros Hs Hr Hc Ht Htr [S1 S2 S3]. split.
  - assumption.
  - intros tid Hge. rewrite Htr. now apply S2.
  - rewrite Hr, Hc. intros Hsrv. destruct (S3 Hsrv) as (Hn & Hp & Hq).
    split_and!; [assumption| |].
    + intros tid c. destruct (Ht tid) as [-> | ->]; [apply Hp|discriminate].
    + intros tid Hge. destruct (Ht tid) as [-> | ->]; [now apply Hq|discriminate].
Qed.

Lemma stopped_inv_thread_step srv n tid a s :
  session_inv srv s -> stopped_inv n s ->
  stopped_inv n (thread_step tid a s).
Proof.
  intros Hinv Hst.
  destruct (threads s !! tid) as [t|] eqn:Ht;
    [|unfold thread_step; now rewrite Ht].
  destruct (thread_step_effect tid a s t Ht)
    as (p' & evs & Hth & Htr & _ & Hoth & Hacc & _ & Hcl & Hrecv & Hexit & _).
  destruct (thread_step_frame tid a s) as (Hs & _ & Hr & _ & _ & _ & _).
  destruct Hst as [S1 S2 S3].
  assert (Hlt : (tid < length (threads s))%nat) by (eapply lookup_lt_Some; eassumption).
  assert (Hph : thread_phase tid s = Some (t_phase t))
    by (unfold thread_phase; now rewrite Ht).
  assert (Hph' : forall tid', thread_phase tid' (thread_step tid a s) =
                   if decide (tid = tid') then Some p' else thread_phase tid' s).
  { intros tid'. unfold thread_phase. rewrite Hth. case_decide.
    - subst. now rewrite list_lookup_insert_eq.
    - now rewrite list_lookup_insert_ne. }
  split.
  - congruence.
  - intros tid' Hge. rewrite Htr, accepts_of_app, (S2 tid' Hge), app_nil_r.
    destruct (decide (tid' = tid)) as [->|Hne]; [|now apply Hoth].
    destruct Hacc as [|[Hf _]]; [assumption|congruence].
  - rewrite Hr. intros Hsrv. destruct (S3 Hsrv) as (Hn & Hp & Hq).
    assert (Hnorecv : forall c, p' <> PRecv c).
    { intros c Hc. destruct (Hrecv c Hc) as [Hx|[[_ Hx]|[Hx _]]].
      - apply (Hp tid c). now rewrite Hph, Hx.
      - rewrite (inv_thread_role _ _ Hinv tid t Ht) in Hx.
        rewrite <- (inv_role _ _ Hinv) in Hx. congruence.
      - congruence. }
    split_and!.
    + destruct Hcl as [[-> _]|[(c & _ & Hc)|[Hc _]]];
        [assumption | now apply Hnorecv in Hc | assumption].
    + intros tid' c. rewrite Hph'. case_decide; [|apply Hp].
      intros [= Hc]. now apply Hnorecv in Hc.
    + intros tid' Hge. rewrite Hph'. case_decide; [|now apply Hq].
      subst tid'. intros [= Hc]. destruct (Hexit Hc) as [Hx|[c Hx]].
      * apply (Hq tid Hge). now rewrite Hph, Hx.
      * apply (Hp tid c). now rewrite Hph, Hx.
Qed.

Lemma thread_phase_connect cb s tid :
  thread_phase tid (connect cb s) = thread_phase tid s \/
  thread_phase tid (connect cb s) = Some PStart.
Proof.
  unfold connect. case_match; [|now left]. unfold thread_phase. cbn.
  destruct (lt_dec tid (length (threads s))).
  - left. now rewrite lookup_app_l.
  - rewrite lookup_app_r by lia.
    destruct (tid - length (threads s))%nat; cbn; [now right|].
    left. symmetry. rewrite lookup_ge_None_2 by lia. reflexivity.
Qed.

Lemma stopped_inv_exec srv n o s s' :
  session_inv srv s -> stopped_inv n s -> exec o s = Some s' ->
  stopped_inv n s'.
Proof.
  intros Hinv Hst.
  pose proof (st_stop _ _ Hst) as Hstop.
  destruct o as [cb|env|data w| |tid a]; cbn [exec].
  - intros [= <-].
    apply (stopped_inv_same n s); [..|assumption].
    + unfold connect. now case_match.
    + unfold connect. now case_match.
    + unfold connect. now case_match.
    + intros tid. apply thread_phase_connect.
    + intros tid. unfold connect. now case_match.
  - unfold disconnect.
    set (s1 := match client (net (set_stop s)) with
               | Some c => sock_close c (set_stop s)
               | None => set_stop s
               end).
    assert (Hs1 : net s1 = net (set_stop s) /\ threads s1 = threads s /\
                  trace s1 = trace s).
    { subst s1. destruct (client (net (set_stop s)));
        rewrite ?sock_close_net, ?sock_close_threads, ?sock_close_trace; auto. }
    destruct Hs1 as (Hn1 & Ht1 & Htr1).
    assert (H1 : stopped_inv n s1).
    { apply (stopped_inv_same n s); [..|assumption]; rewrite ?Hn1, ?Htr1; auto.
      intros tid. left. unfold thread_phase. now rewrite Ht1. }
    assert (H2 : session_inv srv s1).
    { apply (session_inv_same srv s); [..|assumption];
        rewrite ?Hn1, ?Htr1; auto. }
    destruct (_listen_thread (net s1)) as [tid|]; [|now intros [= <-]].
    destruct (thread_alive tid s1); [|now intros [= <-]].
    intros Hj.
    apply (join_preserves (fun x => session_inv srv x /\ stopped_inv n x) tid)
      in Hj; [tauto| |tauto].
    intros a s0 [Ha Hb]. split;
      [now apply session_inv_thread_step
      | apply (stopped_inv_thread_step srv); assumption].
  - intros [= <-]. unfold send.
    destruct (client (net s)) eqn:E; [destruct (bind_result _ _)|]; cbn;
      (apply (stopped_inv_same n s); [..|assumption]; cbn; auto).
  - intros [= <-]. unfold recv.
    destruct (data_queue (net s)); cbn; [assumption|].
    apply (stopped_inv_same n s); [..|assumption]; cbn; auto.
  - intros [= <-]. apply (stopped_inv_thread_step srv); assumption.
Qed.

Lemma disconnect_returns srv env s s1 :
  session_inv srv s ->
  disconnect env s = Some s1 ->
  session_inv srv s1 /\
  _stop_event (net s1) = true /\
  forall tid, thread_alive tid s1 = false.
Proof.
  intros Hinv Hd.
  assert (Hinv1 : session_inv srv s1)
    by (apply (session_inv_exec srv (OpDisconnect env) s); assumption).
  revert Hd. unfold disconnect.
  set (s0 := match client (net (set_stop s)) with
             | Some c => sock_close c (set_stop s)
             | None => set_stop s
             end).
  assert (Hs0 : _stop_event (net s0) = true).
  { subst s0. destruct (client (net (set_stop s)));
      rewrite ?sock_close_net; reflexivity. }
  intros Hd.
  assert (Hmain : _stop_event (net s1) = true /\
                  _listen_thread (net s1) = _listen_thread (net s0) /\
                  forall tid, _listen_thread (net s0) = Some tid ->
                              thread_alive tid s1 = false).
  { destruct (_listen_thread (net s0)) as [tid|] eqn:Hl.
    - destruct (thread_alive tid s0) eqn:Hal.
      + pose proof (join_not_alive tid env s0 s1 Hd) as Hdead.
        apply (join_preserves
                 (fun x => _stop_event (net x) = true /\
                           _listen_thread (net x) = Some tid) tid) in Hd.
        * destruct Hd as [Ha Hb]. split_and!; [assumption..|].
          now intros ? [= <-].
        * intros a x [Ha Hb].
          destruct (thread_step_frame tid a x) as (Hx1 & Hx2 & _).
          split; congruence.
        * auto.
      + injection Hd as <-. split_and!; [assumption..|].
        now intros ? [= <-].
    - injection Hd as <-. split_and!; [assumption..|]. discriminate. }
  destruct Hmain as (Hstop & Hl & Hdead).
  split_and!; [assumption..|].
  intros tid. destruct (thread_alive tid s1) eqn:Hal; [|reflexivity].
  unfold thread_alive in Hal.
  destruct (threads s1 !! tid) as [t|] eqn:Ht; [|discriminate].
  pose proof (inv_alive _ _ Hinv1 tid t Ht Hal) as Hl1.
  rewrite Hl in Hl1. specialize (Hdead tid Hl1).
  unfold thread_alive in Hdead. rewrite Ht in Hdead. congruence.
Qed.

(** C9 (as amended): once [disconnect] has returned, the stop flag
    stays set through every later operation; every thread, whatever the
    environment answers, has returned after two more steps; a thread
    that finds itself in the receive loop leaves it at its next step,
    clearing the session's socket.  In a listener session the session's
    socket is never set again, and no thread created afterwards accepts
    a connection, reaches the receive loop or reports success: when
    creating, binding or listening on its socket raises, its first step
    invokes the callback once, with that exception, and returns;
    otherwise the first step invokes nothing, and the next one, the
    first test of the accept loop, returns without a callback and
    without a call of [accept]. *)
Theorem after_disconnect srv h pt s env s1 (os : list (op value)) s2 :
  reachable srv h pt s ->
  disconnect env s = Some s1 ->
  exec_all os s1 = Some s2 ->
  _stop_event (net s2) = true /\
  (forall tid a1 a2,
     thread_alive tid (thread_step tid a2 (thread_step tid a1 s2)) = false) /\
  (forall tid c a,
     thread_phase tid s2 = Some (PRecv c) ->
     is_connected (thread_step tid a s2) = false) /\
  (srv = true ->
     client (net s2) = client (net s1) /\
     forall tid t,
       threads s2 !! tid = Some t ->
       (length (threads s1) <= tid)%nat ->
       accepts_of tid (trace s2) = [] /\
       match t_phase t with
       | PStart | PAccept _ | PDone ExitShutdown =>
           callbacks_of tid (trace s2) = []
       | PDone (ExitFailed e) => callbacks_of tid (trace s2) = [Some e]
       | PRecv _ | PDone ExitRecvLoop => False
       end /\
       forall a,
         let s3 := thread_step tid a s2 in
         accepts_of tid (trace s3) = [] /\
         match t_phase t with
         | PStart =>
             match setup_raises true a with
             | Some e =>
                 thread_phase tid s3 = Some (PDone (ExitFailed e)) /\
                 callbacks_of tid (trace s3) = [Some e]
             | None =>
                 thread_phase tid s3 = Some (PAccept (next_sock s2)) /\
                 callbacks_of tid (trace s3) = []
             end
         | PAccept _ =>
             thread_phase tid s3 = Some (PDone ExitShutdown) /\
             callbacks_of tid (trace s3) = []
         | PRecv _ => False
         | PDone _ => s3 = s2
         end).
Proof.
  intros Hreach Hd Hos.
  pose proof (reachable_session_inv _ _ _ _ Hreach) as Hinv.
  destruct (disconnect_returns srv env s s1 Hinv Hd) as (Hinv1 & Hstop1 & Hdead1).
  assert (Hc1 : client (net s1) = None).
  { destruct (client (net s1)) as [c|] eqn:Hc; [|reflexivity].
    destruct (inv_client _ _ Hinv1 c Hc) as (tid & _ & Hp).
    specialize (Hdead1 tid). rewrite thread_alive_phase, Hp in Hdead1.
    discriminate. }
  assert (Hst1 : stopped_inv (length (threads s1)) s1).
  { split.
    - assumption.
    - intros tid Hge. now apply (inv_fresh _ _ Hinv1).
    - intros _. split_and!.
      + exact Hc1.
      + intros tid c Hp. specialize (Hdead1 tid).
        rewrite thread_alive_phase, Hp in Hdead1. discriminate.
      + intros tid Hge. unfold thread_phase.
        now rewrite lookup_ge_None_2. }
  assert (Hboth : session_inv srv s2 /\ stopped_inv (length (threads s1)) s2).
  { apply (exec_all_preserves
             (fun x => session_inv srv x /\ stopped_inv (length (threads s1)) x)
             ) with (os := os) (s := s1); [|tauto|assumption].
    intros o x x' [Ha Hb] Hx. split;
      [now apply (session_inv_exec srv o x)
      | now apply (stopped_inv_exec srv _ o x)]. }
  destruct Hboth as (Hinv2 & Hst2).
  pose proof Hst2 as [S1 S2 S3].
  split_and!.
  - assumption.
  - intros tid a1 a2. now apply stopped_two_steps.
  - intros tid c a Hp. unfold thread_phase in Hp.
    destruct (threads s2 !! tid) as [t|] eqn:Ht; [|discriminate].
    cbn in Hp. injection Hp as Hp.
    unfold thread_step. rewrite Ht, Hp. unfold recv_step. rewrite S1.
    destruct (leave_recv_loop_spec tid t c s2) as (_ & _ & Hn & _);
      [eapply lookup_lt_Some; eassumption|].
    unfold is_connected. now rewrite Hn.
  - intros ->. destruct S3 as (Hn & Hp & Hq); [apply (inv_role _ _ Hinv2)|].
    split; [now rewrite Hn, Hc1|].
    intros tid t Ht Hge.
    pose proof (inv_callbacks _ _ Hinv2 tid t Ht) as Hcb.
    assert (Hph : thread_phase tid s2 = Some (t_phase t))
      by (unfold thread_phase; now rewrite Ht).
    split_and!.
    + now apply S2.
    + destruct (t_phase t) as [| |c|[|e|]]; try exact Hcb.
      * now apply (Hp tid c).
      * now apply (Hq tid Hge).
    + intros a. cbn zeta. split.
      * apply (st_no_accept (length (threads s1))); [|assumption].
        now apply (stopped_inv_thread_step true).
      * pose proof (thread_step_callbacks tid t a s2 Ht Hcb) as Hstep.
        cbn zeta in Hstep.
        rewrite (inv_thread_role _ _ Hinv2 tid t Ht), S1 in Hstep.
        destruct (t_phase t) as [|server|c|ex] eqn:Hpt.
        -- destruct (setup_raises true a); exact Hstep.
        -- exact Hstep.
        -- now apply (Hp tid c).
        -- unfold thread_step. now rewrite Ht, Hpt.
Qed.

(** *** Addresses *)

Lemma addr_inv_same (h : string) (q : Z) s s' :
  host (net s') = host (net s) ->
  port (net s') = port (net s) ->
  threads s' = threads s ->
  (exists evs, trace s' = evs ++ trace s /\ Forall (addr_event_ok h q) evs) ->
  addr_inv h q s -> addr_inv h q s'.
Proof.
  intros Hh Hp Ht (evs & Htr & Hev) [A1 A2 A3 A4].
  split; rewrite ?Hh, ?Hp, ?Ht, ?Htr; try assumption.
  apply Forall_app. now split.
Qed.

Lemma addr_inv_thread_step (h : string) (q : Z) tid a s :
  addr_inv h q s -> addr_inv h q (thread_step tid a s).
Proof.
  intros [A1 A2 A3 A4].
  destruct (threads s !! tid) as [t|] eqn:Ht;
    [|unfold thread_step; rewrite Ht; now split].
  destruct (thread_step_effect tid a s t Ht)
    as (p' & evs & Hth & Htr & _ & _ & _ & Hev & _).
  destruct (thread_step_frame tid a s) as (_ & _ & _ & Hh & Hp & _).
  assert (Hlt : (tid < length (threads s))%nat) by (eapply lookup_lt_Some; eassumption).
  destruct (A3 tid t Ht) as [Hth1 Hth2].
  split.
  - congruence.
  - congruence.
  - intros tid' t'. rewrite Hth.
    destruct (decide (tid = tid')) as [<-|Hne].
    + rewrite list_lookup_insert_eq by assumption. now intros [= <-].
    + rewrite list_lookup_insert_ne by assumption. apply A3.
  - rewrite Htr. apply Forall_app. split; [|assumption].
    now rewrite <- Hth1, <- Hth2.
Qed.

Lemma addr_inv_exec (h : string) (q : Z) o s s' :
  addr_inv h q s -> exec o s = Some s' -> addr_inv h q s'.
Proof.
  intros Hinv. destruct o as [cb|env|data w| |tid a]; cbn [exec].
  - intros [= <-]. unfold connect. case_match; [|assumption].
    destruct Hinv as [A1 A2 A3 A4]. split; cbn; try assumption.
    intros tid t Hlk. apply lookup_app_Some in Hlk as [Hlk|[_ Hlk]].
    + now apply (A3 tid).
    + apply list_lookup_singleton_Some in Hlk as [_ <-]. cbn. now split.
  - unfold disconnect.
    set (s1 := match client (net (set_stop s)) with
               | Some c => sock_close c (set_stop s)
               | None => set_stop s
               end).
    assert (H1 : addr_inv h q s1).
    { apply (addr_inv_same h q s); [..|assumption]; subst s1;
        destruct (client (net (set_stop s)));
        rewrite ?sock_close_net, ?sock_close_threads, ?sock_close_trace;
        try reflexivity; now exists []. }
    destruct (_listen_thread (net s1)) as [tid|]; [|now intros [= <-]].
    destruct (thread_alive tid s1); [|now intros [= <-]].
    apply join_preserves; [|assumption].
    intros a s0. apply addr_inv_thread_step.
  - intros [= <-]. unfold send.
    destruct (client (net s)); [destruct (bind_result _ _)|]; cbn;
      (apply (addr_inv_same h q s); [..|assumption]; try reflexivity;
       eexists [_]; split; [reflexivity|]; now repeat constructor).
  - intros [= <-]. unfold recv.
    destruct (data_queue (net s)); cbn; [assumption|].
    apply (addr_inv_same h q s); [..|assumption]; try reflexivity.
    now exists [].
  - intros [= <-]. now apply addr_inv_thread_step.
Qed.

(** C10: the address of a session is the host given to [__init__], or
    the machine's host name as [socket.gethostname()] returns it when
    none is given, with the port given, or 11111 when none is given.
    It is the session's and every thread's address, every address ever
    bound or dialled, and what the first step of a thread binds
    (listener) or dials (initiator). *)
Theorem default_address srv (h : option string) (pt : option Z) s :
  reachable srv h pt s ->
  let h0 := match h with Some x => x | None => gethostname end in
  let p0 := match pt with Some x => x | None => 11111 end in
  host (net s) = h0 /\
  port (net s) = p0 /\
  (forall fd h' q',
     EvBind fd h' q' ∈ trace s \/ EvConnect fd h' q' ∈ trace s ->
     h' = h0 /\ q' = p0) /\
  (forall tid t a,
     threads s !! tid = Some t -> t_phase t = PStart -> a_socket a = None ->
     t_as_server t = srv /\
     (if srv then EvBind (next_sock s) h0 p0
      else EvConnect (next_sock s) h0 p0)
     ∈ trace (thread_step tid a s)).
Proof.
  intros Hreach h0 p0.
  pose proof (reachable_session_inv _ _ _ _ Hreach) as Hsess.
  destruct Hreach as [os Hos].
  assert (Hinv : addr_inv h0 p0 s).
  { apply (exec_all_preserves (addr_inv h0 p0))
      with (os := os) (s := __init__ srv h pt); [| |assumption].
    - intros o x x'. apply addr_inv_exec.
    - split; cbn; try done. }
  destruct Hinv as [A1 A2 A3 A4]. split_and!; try assumption.
  - intros fd h' q' [Hin|Hin];
      apply (proj1 (Forall_forall _ _) A4) in Hin; exact Hin.
  - intros tid t a Ht Hph Hsock.
    pose proof (inv_thread_role _ _ Hsess tid t Ht) as Hrole.
    destruct (A3 tid t Ht) as [Hh Hq].
    split; [assumption|].
    unfold thread_step. rewrite Ht, Hph. unfold run_start.
    rewrite Hsock, Hrole, Hh, Hq.
    unfold connect_failed, established.
    destruct srv; repeat case_match; cbn;
      repeat (first [apply list_elem_of_here | apply list_elem_of_further]).
Qed.

(** ** The rest of the module *)

(** *** The queue between the receive loop and [recv] *)

Lemma drain_spec n : forall s,
  snd (drain n s) = take n (data_queue (net s)) /\
  data_queue (net (fst (drain n s))) = drop n (data_queue (net s)).
Proof.
  induction n as [|n IH]; intros s; cbn [drain].
  - cbn. now rewrite drop_0.
  - unfold recv. destruct (data_queue (net s)) as [|v q] eqn:Hq.
    + destruct (IH s) as [H1 H2]. rewrite Hq in H1, H2.
      rewrite take_nil in H1. rewrite drop_nil in H2. now split.
    + destruct (IH (set_queue q s)) as [H1 H2]. cbn in H1, H2.
      destruct (drain n (set_queue q s)) as [s'' vs]. cbn in *.
      split; congruence.
Qed.

(** X1: polling [recv] hands out the queued values oldest first: [n]
    calls return the first [n] values of the queue and leave the rest;
    once as many calls as there were values have been made, the queue is
    empty and [recv] returns [None]. *)
Theorem recv_drains_in_order (n : nat) s :
  snd (drain n s) = take n (data_queue (net s)) /\
  data_queue (net (fst (drain n s))) = drop n (data_queue (net s)) /\
  ((length (data_queue (net s)) <= n)%nat ->
   snd (drain n s) = data_queue (net s) /\
   snd (recv (fst (drain n s))) = None).
Proof.
  destruct (drain_spec n s) as [H1 H2]. split_and!; try assumption.
  intros Hlen. split.
  - rewrite H1. now apply take_ge.
  - unfold recv. rewrite H2, drop_ge by assumption. reflexivity.
Qed.

(** *** What the codec accepts *)

(** X2: [_pack_data] returns a frame exactly for the values whose
    pickle exists and is at most 2^31 - 1 bytes long (what fits the
    signed 4-byte header); for the others it raises. *)
Theorem pack_data_accepts_iff (v : value) :
  (exists frame, _pack_data v = Ok frame) <->
  (exists b_data, dumps v = Ok b_data /\
                  Z.of_nat (length b_data) <= 2 ^ 31 - 1).
Proof.
  unfold _pack_data, bind_result, struct_pack_i, int_min, int_max. split.
  - intros [frame Hf]. destruct (dumps v) as [b|]; [|discriminate].
    exists b. split; [reflexivity|].
    destruct (Z.leb_spec (Z.of_nat (length b)) (2 ^ 31 - 1)); [assumption|].
    rewrite andb_false_r in Hf. discriminate.
  - intros (b & -> & Hlen).
    destruct (Z.leb_spec (- 2 ^ 31) (Z.of_nat (length b))); [|lia].
    destruct (Z.leb_spec (Z.of_nat (length b)) (2 ^ 31 - 1)); [|lia].
    cbn. eauto.
Qed.

(** *** Malformed input in the receive loop *)

Lemma struct_unpack_i_short (b : bytes) :
  length b <> 4%nat -> struct_unpack_i b = Raise StructError.
Proof.
  intros Hl. unfold struct_unpack_i.
  destruct b as [|? [|? [|? [|? [|? ?]]]]]; cbn in Hl; try reflexivity; lia.
Qed.

Lemma recv_frame_short_header (hdr : bytes) (body : recv_answer) :
  (length hdr < 4)%nat ->
  recv_frame (value := value) (RecvBytes hdr) body = Raise StructError.
Proof.
  intros Hl. unfold recv_frame, sock_recv. cbn [Z.ltb Z.compare bind_result].
  change (Z.to_nat 4) with 4%nat. rewrite take_ge by lia. cbn [bind_result].
  rewrite struct_unpack_i_short by lia. reflexivity.
Qed.

Lemma recv_frame_negative (hdr : bytes) (n : Z) (body : recv_answer) :
  struct_unpack_i (take 4 hdr) = Ok n -> n < 0 ->
  recv_frame (value := value) (RecvBytes hdr) body = Raise ValueError.
Proof.
  intros Hu Hn. unfold recv_frame, sock_recv. cbn [Z.ltb Z.compare bind_result].
  change (Z.to_nat 4) with 4%nat. rewrite Hu. cbn [bind_result].
  destruct (Z.ltb_spec n 0); [reflexivity|lia].
Qed.

(** An iteration that raises an exception outside the [OSError] family:
    the warning, then the exit line, then the [finally]. *)
Lemma recv_step_decode_error tid t c a s (e : exn) :
  threads s !! tid = Some t ->
  t_phase t = PRecv c ->
  _stop_event (net s) = false ->
  recv_frame (a_recv_hdr a) (a_recv_body a) = Raise e ->
  is_OSError e = false ->
  let s' := thread_step tid a s in
  thread_phase tid s' = Some (PDone ExitRecvLoop) /\
  trace s' = EvLog Debug MsgThreadExit :: EvLog Warning (MsgRecvFailed e)
               :: trace s /\
  client (net s') = None /\
  c ∈ closed s' /\
  data_queue (net s') = data_queue (net s).
Proof.
  intros Ht Hp Hstop Hr He. cbn zeta.
  assert (Hlt : (tid < length (threads s))%nat) by (eapply lookup_lt_Some; eassumption).
  unfold thread_step. rewrite Ht, Hp. unfold recv_step. rewrite Hstop, Hr.
  assert (is_timeout e = false /\ is_ConnectionResetError e = false)
    as [-> ->] by (destruct e; cbn in He; try discriminate; now split).
  rewrite He.
  unfold leave_recv_loop. split_and!.
  - apply thread_phase_set_phase. cbn. now rewrite sock_close_threads.
  - cbn. now rewrite sock_close_trace.
  - reflexivity.
  - cbn. apply sock_close_closed.
  - cbn. now rewrite sock_close_net.
Qed.

(** X3: when the read of the header returns fewer than four bytes
    (none at all when the peer has closed the connection), the
    iteration fails with [struct.error]: the receive loop logs the
    warning and ends, the socket is closed, the session is no longer
    connected, and nothing is queued. *)
Theorem recv_short_header_ends_loop tid t c a s (hdr : bytes) :
  threads s !! tid = Some t ->
  t_phase t = PRecv c ->
  _stop_event (net s) = false ->
  a_recv_hdr a = RecvBytes hdr ->
  (length hdr < 4)%nat ->
  let s' := thread_step tid a s in
  thread_phase tid s' = Some (PDone ExitRecvLoop) /\
  trace s' = EvLog Debug MsgThreadExit
               :: EvLog Warning (MsgRecvFailed StructError) :: trace s /\
  client (net s') = None /\
  c ∈ closed s' /\
  data_queue (net s') = data_queue (net s).
Proof.
  intros Ht Hp Hstop Hh Hl.
  apply (recv_step_decode_error tid t c a s StructError); try assumption.
  - rewrite Hh. now apply recv_frame_short_header.
  - reflexivity.
Qed.

(** X4: a header that decodes to a negative length makes the payload
    read raise [ValueError] before any payload byte is read: the
    receive loop logs the warning and ends with the usual cleanup. *)
Theorem recv_negative_length_ends_loop tid t c a s (hdr : bytes) (n : Z) :
  threads s !! tid = Some t ->
  t_phase t = PRecv c ->
  _stop_event (net s) = false ->
  a_recv_hdr a = RecvBytes hdr ->
  struct_unpack_i (take 4 hdr) = Ok n ->
  n < 0 ->
  let s' := thread_step tid a s in
  thread_phase tid s' = Some (PDone ExitRecvLoop) /\
  trace s' = EvLog Debug MsgThreadExit
               :: EvLog Warning (MsgRecvFailed ValueError) :: trace s /\
  client (net s') = None /\
  c ∈ closed s' /\
  data_queue (net s') = data_queue (net s).
Proof.
  intros Ht Hp Hstop Hh Hu Hn.
  apply (recv_step_decode_error tid t c a s ValueError); try assumption.
  - rewrite Hh. now apply (recv_frame_negative hdr n).
  - reflexivity.
Qed.

(** X5: a time-out changes nothing at all, whichever of the two reads
    it hits.  When it hits the payload read, the header already read is
    dropped with it: the next iteration starts by reading a header
    again. *)
Theorem recv_timeout_changes_nothing tid t c a s :
  threads s !! tid = Some t ->
  t_phase t = PRecv c ->
  _stop_event (net s) = false ->
  a_recv_hdr a = RecvRaise SocketTimeout \/
  (exists hdr n, a_recv_hdr a = RecvBytes hdr /\
                 struct_unpack_i (take 4 hdr) = Ok n /\ 0 <= n /\
                 a_recv_body a = RecvRaise SocketTimeout) ->
  thread_step tid a s = s.
Proof.
  intros Ht Hp Hstop Hcase.
  assert (Hr : recv_frame (value := value) (a_recv_hdr a) (a_recv_body a)
               = Raise SocketTimeout).
  { destruct Hcase as [->|(hdr & n & -> & Hu & Hn & ->)].
    - reflexivity.
    - unfold recv_frame, sock_recv. cbn [Z.ltb Z.compare bind_result].
      change (Z.to_nat 4) with 4%nat. rewrite Hu. cbn [bind_result].
      destruct (Z.ltb_spec n 0); [lia|reflexivity]. }
  unfold thread_step. rewrite Ht, Hp. unfold recv_step.
  now rewrite Hstop, Hr.
Qed.

(** *** From [send] to the peer's [recv] *)

Lemma recv_frame_of_pack_data `{!PickleLaws value}
    (v : value) (frame more : bytes) :
  _pack_data v = Ok frame ->
  recv_frame (RecvBytes (frame ++ more)) (RecvBytes (drop 4 (frame ++ more)))
  = Ok v.
Proof.
  intros Hp. destruct (pack_data_inv _ _ Hp) as (bl & bd & Hd & Hs & ->).
  pose proof (struct_pack_i_length _ _ Hs) as Hl.
  unfold recv_frame. rewrite <- app_assoc, (sock_recv_header _ _ Hl).
  cbn [bind_result]. rewrite (struct_unpack_pack_i _ _ Hs). cbn [bind_result].
  unfold sock_recv.
  destruct (Z.ltb_spec (Z.of_nat (length bd)) 0) as [Hneg|_]; [lia|].
  rewrite Nat2Z.id. rewrite <- Hl at 1. rewrite drop_app_length.
  rewrite take_app_length. cbn [bind_result].
  now apply loads_dumps.
Qed.

(** X6: when [send] returns 0, it has written exactly one frame; when
    the peer's receive loop reads that frame from its stream (whatever
    follows it there), the value sent is appended to the peer's queue,
    behind the values already waiting, and a peer whose queue was empty
    gets it from its next [recv]. *)
Theorem send_reaches_peer_queue `{!PickleLaws value}
    (data : value) (sA sB : System value) tid t c a (more : bytes) :
  snd (send data None sA) = PyInt 0 ->
  threads sB !! tid = Some t ->
  t_phase t = PRecv c ->
  _stop_event (net sB) = false ->
  exists cA frame,
    trace (fst (send data None sA)) = EvSendAll cA frame :: trace sA /\
    (a_recv_hdr a = RecvBytes (frame ++ more) ->
     a_recv_body a = RecvBytes (drop 4 (frame ++ more)) ->
     data_queue (net (thread_step tid a sB)) = data_queue (net sB) ++ [data] /\
     thread_phase tid (thread_step tid a sB) = Some (PRecv c) /\
     (data_queue (net sB) = [] ->
      snd (recv (thread_step tid a sB)) = Some data)).
Proof.
  intros Hsend Ht Hp Hstop. revert Hsend. unfold send.
  destruct (client (net sA)) as [cA|]; [|discriminate].
  destruct (_pack_data data) as [frame|e] eqn:Hpack; cbn; [|discriminate].
  intros _. exists cA, frame. split; [reflexivity|].
  intros Hh Hb.
  assert (Hstep : thread_step tid a sB
                  = set_queue (data_queue (net sB) ++ [data]) sB).
  { unfold thread_step. rewrite Ht, Hp. unfold recv_step.
    rewrite Hstop, Hh, Hb. now rewrite (recv_frame_of_pack_data data frame more). }
  rewrite Hstep. split_and!.
  - reflexivity.
  - unfold thread_phase. cbn. rewrite Ht. cbn. now rewrite Hp.
  - intros Hq. unfold recv. cbn. now rewrite Hq.
Qed.

(** *** Connected means: a thread is in the receive loop *)

Lemma recv_owner_same s s' :
  client (net s') = client (net s) ->
  threads s' = threads s ->
  recv_owner_inv s -> recv_owner_inv s'.
Proof.
  intros Hc Ht Hinv tid c. unfold thread_phase. rewrite Ht, Hc. apply Hinv.
Qed.

Lemma recv_owner_thread_step srv tid a s :
  session_inv srv s -> recv_owner_inv s ->
  recv_owner_inv (thread_step tid a s).
Proof.
  intros Hinv Hown.
  destruct (threads s !! tid) as [t|] eqn:Ht;
    [|unfold thread_step; now rewrite Ht].
  destruct (thread_step_effect tid a s t Ht)
    as (p' & evs & Hth & _ & _ & _ & _ & _ & Hcl & _ & _ & Hdead).
  destruct (is_alive t) eqn:Hal; [|now rewrite (Hdead eq_refl)].
  pose proof (inv_alive _ _ Hinv tid t Ht Hal) as Hlisten.
  assert (Hlt : (tid < length (threads s))%nat) by (eapply lookup_lt_Some; eassumption).
  intros tid' c. unfold thread_phase. rewrite Hth.
  destruct (decide (tid = tid')) as [<-|Hne].
  - rewrite list_lookup_insert_eq by assumption. cbn. intros [= ->].
    destruct Hcl as [[Hsame Hp]|[(c0 & Hc0 & [= <-])|[_ Hno]]].
    + rewrite Hsame. apply (Hown tid). unfold thread_phase. rewrite Ht. cbn.
      destruct Hp as [<-|Hp]; [reflexivity|]. now destruct (Hp c).
    + assumption.
    + now destruct (Hno c).
  - rewrite list_lookup_insert_ne by assumption. intros Hp.
    change (thread_phase tid' s = Some (PRecv c)) in Hp.
    unfold thread_phase in Hp.
    destruct (threads s !! tid') as [t'|] eqn:Ht'; [|discriminate].
    cbn in Hp. injection Hp as Hp.
    assert (Hal' : is_alive t' = true) by (unfold is_alive; now rewrite Hp).
    pose proof (inv_alive _ _ Hinv tid' t' Ht' Hal'). congruence.
Qed.

Lemma recv_owner_exec srv o s s' :
  session_inv srv s -> recv_owner_inv s -> exec o s = Some s' ->
  recv_owner_inv s'.
Proof.
  intros Hinv Hown. destruct o as [cb|env|data w| |tid a]; cbn [exec].
  - intros [= <-]. unfold connect.
    destruct (match _listen_thread (net s) with
              | Some tid => negb (thread_alive tid s)
              | None => true
              end) eqn:Hspawn; [|assumption].
    intros tid c. unfold thread_phase. cbn [threads set_listen_thread set_threads].
    intros Hp.
    destruct ((threads s ++ _) !! tid) as [t|] eqn:Hlk; [|discriminate].
    cbn in Hp. injection Hp as Hp.
    apply lookup_app_Some in Hlk as [Hlk|[_ Hlk]].
    + assert (Hal : is_alive t = true) by (unfold is_alive; now rewrite Hp).
      assert (Hlk' : threads s !! tid = Some t) by exact Hlk.
      pose proof (inv_alive _ _ Hinv tid t Hlk Hal) as Hl.
      rewrite Hl in Hspawn. unfold thread_alive in Hspawn.
      rewrite Hlk', Hal in Hspawn. discriminate.
    + apply list_lookup_singleton_Some in Hlk as [_ <-]. discriminate.
  - unfold disconnect.
    set (s1 := match client (net (set_stop s)) with
               | Some c => sock_close c (set_stop s)
               | None => set_stop s
               end).
    assert (Hs1 : net s1 = net (set_stop s) /\ threads s1 = threads s /\
                  trace s1 = trace s).
    { subst s1. destruct (client (net (set_stop s)));
        rewrite ?sock_close_net, ?sock_close_threads, ?sock_close_trace; auto. }
    destruct Hs1 as (Hn1 & Ht1 & Htr1).
    assert (H1 : recv_owner_inv s1)
      by (apply (recv_owner_same s); [now rewrite Hn1|assumption..]).
    assert (H2 : session_inv srv s1).
    { apply (session_inv_same srv s); [..|assumption];
        rewrite ?Hn1, ?Htr1; auto. }
    destruct (_listen_thread (net s1)) as [tid|]; [|now intros [= <-]].
    destruct (thread_alive tid s1); [|now intros [= <-]].
    intros Hj.
    apply (join_preserves (fun x => session_inv srv x /\ recv_owner_inv x) tid)
      in Hj; [tauto| |tauto].
    intros a s0 [Ha Hb]. split;
      [now apply session_inv_thread_step
      | apply (recv_owner_thread_step srv); assumption].
  - intros [= <-]. unfold send.
    destruct (client (net s)) eqn:E; [destruct (bind_result _ _)|]; cbn;
      (apply (recv_owner_same s); [..|assumption]; cbn; auto).
  - intros [= <-]. unfold recv.
    destruct (data_queue (net s)); cbn; [assumption|].
    apply (recv_owner_same s); [..|assumption]; cbn; auto.
  - intros [= <-]. apply (recv_owner_thread_step srv); assumption.
Qed.

Lemma reachable_both srv h pt s :
  reachable srv h pt s -> session_inv srv s /\ recv_owner_inv s.
Proof.
  intros [os Hos].
  apply (exec_all_preserves (fun x => session_inv srv x /\ recv_owner_inv x))
    with (os := os) (s := __init__ srv h pt); [| |assumption].
  - intros o x x' [Ha Hb] Hx. split;
      [now apply (session_inv_exec srv o x)
      | now apply (recv_owner_exec srv o x)].
  - split; [apply session_inv_init|].
    intros tid c. unfold thread_phase. cbn. discriminate.
Qed.

(** X7: in every reachable state, while a thread is in the receive
    loop the session holds that thread's socket, so [is_connected] is
    true; in particular, from the moment a thread has reported success
    through the callback and for as long as it is alive, the session is
    connected. *)
Theorem receiving_implies_connected srv h pt s :
  reachable srv h pt s ->
  (forall tid c,
     thread_phase tid s = Some (PRecv c) ->
     client (net s) = Some c /\ is_connected s = true) /\
  (forall tid t,
     threads s !! tid = Some t -> is_alive t = true ->
     callbacks_of tid (trace s) = [None] ->
     is_connected s = true).
Proof.
  intros Hreach. destruct (reachable_both _ _ _ _ Hreach) as [Hinv Hown].
  assert (Hback : forall tid c, thread_phase tid s = Some (PRecv c) ->
                                client (net s) = Some c /\ is_connected s = true).
  { intros tid c Hp. unfold is_connected. now rewrite (Hown tid c Hp). }
  split; [exact Hback|].
  intros tid t Ht Hal Hcb.
  rewrite (inv_callbacks _ _ Hinv tid t Ht) in Hcb.
  destruct (t_phase t) as [| |c|[|e|]] eqn:Hp; cbn in Hcb;
    try discriminate; [|unfold is_alive in Hal; rewrite Hp in Hal; discriminate].
  apply (Hback tid c). unfold thread_phase. rewrite Ht. cbn. now rewrite Hp.
Qed.

(** *** Starting again *)

(** X8: in every reachable state, [connect] creates a thread exactly
    when no thread is alive (nothing was started yet, or the last
    attempt has returned, by whichever exit); the new thread is alive,
    carries the callback given, and becomes the session's thread. *)
Theorem connect_spawns_iff_idle srv h pt s (cb : nat) :
  reachable srv h pt s ->
  ((forall tid, thread_alive tid s = false) <->
   length (threads (connect cb s)) = S (length (threads s))) /\
  ((forall tid, thread_alive tid s = false) ->
   _listen_thread (net (connect cb s)) = Some (length (threads s)) /\
   thread_phase (length (threads s)) (connect cb s) = Some PStart /\
   connect_callback <$> threads (connect cb s) !! length (threads s) = Some cb /\
   take (length (threads s)) (threads (connect cb s)) = threads s).
Proof.
  intros Hreach. pose proof (reachable_session_inv _ _ _ _ Hreach) as Hinv.
  assert (Hspawn : (forall tid, thread_alive tid s = false) ->
            connect cb s =
            set_listen_thread (length (threads s))
              (set_threads
                 (threads s ++ [ {| t_as_server := as_server (net s);
                                    t_host := host (net s);
                                    t_port := port (net s);
                                    connect_callback := cb;
                                    t_phase := PStart |} ]) s)).
  { intros Hidle. unfold connect.
    destruct (_listen_thread (net s)) as [tid|]; [|reflexivity].
    now rewrite (Hidle tid). }
  split.
  - split.
    + intros Hidle. rewrite (Hspawn Hidle). cbn. rewrite length_app. cbn. lia.
    + intros Hlen tid. destruct (thread_alive tid s) eqn:Hal; [|reflexivity].
      exfalso. unfold thread_alive in Hal.
      destruct (threads s !! tid) as [t|] eqn:Ht; [|discriminate].
      pose proof (inv_alive _ _ Hinv tid t Ht Hal) as Hl.
      unfold connect in Hlen. rewrite Hl in Hlen. unfold thread_alive in Hlen.
      rewrite Ht, Hal in Hlen. cbn in Hlen. lia.
  - intros Hidle. rewrite (Hspawn Hidle). unfold thread_phase. cbn.
    rewrite !lookup_app_r by lia. rewrite !Nat.sub_diag. cbn.
    split_and!; try reflexivity. now rewrite take_app_length.
Qed.

(** *** [disconnect] on a reachable session *)

(** X9: on a reachable session, once [disconnect] has returned no
    thread at all is alive, so the next [connect] starts a new thread,
    which becomes the session's thread. *)
Theorem disconnect_leaves_no_thread srv h pt s (env : list answers) s1 (cb : nat) :
  reachable srv h pt s ->
  disconnect env s = Some s1 ->
  (forall tid, thread_alive tid s1 = false) /\
  _listen_thread (net (connect cb s1)) = Some (length (threads s1)) /\
  thread_alive (length (threads s1)) (connect cb s1) = true.
Proof.
  intros Hreach Hd. pose proof (reachable_session_inv _ _ _ _ Hreach) as Hinv.
  destruct (disconnect_returns srv env s s1 Hinv Hd) as (_ & _ & Hdead).
  split; [assumption|].
  assert (Hspawn :
            connect cb s1 =
            set_listen_thread (length (threads s1))
              (set_threads
                 (threads s1 ++ [ {| t_as_server := as_server (net s1);
                                     t_host := host (net s1);
                                     t_port := port (net s1);
                                     connect_callback := cb;
                                     t_phase := PStart |} ]) s1)).
  { unfold connect.
    destruct (_listen_thread (net s1)) as [tid|]; [|reflexivity].
    now rewrite (Hdead tid). }
  rewrite Hspawn. split; [reflexivity|].
  unfold thread_alive. cbn.
  rewrite lookup_app_r by lia. now rewrite Nat.sub_diag.
Qed.

(** X10: [disconnect] called while the listener is still waiting for
    a peer ends that attempt silently: the thread returns through the
    shutdown exit at its next test of the loop, and the callback given
    to that [connect] is never invoked. *)
Theorem disconnect_while_waiting_is_silent srv h pt s tid (server : sock)
    (env : list answers) s1 :
  reachable srv h pt s ->
  thread_phase tid s = Some (PAccept server) ->
  disconnect env s = Some s1 ->
  thread_phase tid s1 = Some (PDone ExitShutdown) /\
  callbacks_of tid (trace s1) = [] /\
  is_connected s1 = false.
Proof.
  intros Hreach Hp Hd. pose proof (reachable_session_inv _ _ _ _ Hreach) as Hinv.
  unfold thread_phase in Hp.
  destruct (threads s !! tid) as [t|] eqn:Ht; [|discriminate].
  cbn in Hp. injection Hp as Hp.
  assert (Hal : is_alive t = true) by (unfold is_alive; now rewrite Hp).
  pose proof (inv_alive _ _ Hinv tid t Ht Hal) as Hl.
  assert (Hlt : (tid < length (threads s))%nat) by (eapply lookup_lt_Some; eassumption).
  assert (Hc : client (net s) = None).
  { destruct (client (net s)) as [c|] eqn:Hc; [|reflexivity].
    destruct (inv_client _ _ Hinv c Hc) as (tid0 & Hl0 & Hp0).
    assert (tid0 = tid) by congruence. subst tid0.
    unfold thread_phase in Hp0. rewrite Ht in Hp0. cbn in Hp0. congruence. }
  pose proof (inv_callbacks _ _ Hinv tid t Ht) as Hcb. rewrite Hp in Hcb.
  assert (Hal0 : thread_alive tid (set_stop s) = true)
    by (unfold thread_alive; cbn; now rewrite Ht).
  assert (Hstep : forall a, thread_step tid a (set_stop s)
                  = set_phase tid t (PDone ExitShutdown)
                      (emit (EvLog Debug MsgThreadExit) (set_stop s))).
  { intros a. unfold thread_step. cbn [threads set_stop]. rewrite Ht, Hp.
    reflexivity. }
  revert Hd. unfold disconnect. cbn. rewrite Hc. cbn. rewrite Hl, Hal0.
  destruct env as [|a env]; cbn [join]; rewrite Hal0; [discriminate|].
  rewrite Hstep.
  set (s' := set_phase tid t (PDone ExitShutdown)
               (emit (EvLog Debug MsgThreadExit) (set_stop s))).
  assert (Hp' : thread_phase tid s' = Some (PDone ExitShutdown))
    by (apply thread_phase_set_phase; cbn; assumption).
  assert (Hdead : thread_alive tid s' = false)
    by (now rewrite thread_alive_phase, Hp').
  destruct env as [|a' env']; cbn [join]; rewrite Hdead; intros [= <-];
    (split_and!; [exact Hp' | exact Hcb | unfold is_connected; cbn; now rewrite Hc]).
Qed.

(** *** What the operations never do *)

(** X11: only [disconnect] sets the stop flag: after any sequence of
    operations without a [disconnect], the flag of a session is still
    clear. *)
Theorem stop_flag_only_by_disconnect srv h pt (os : list (op value)) s :
  exec_all os (__init__ srv h pt) = Some s ->
  Forall (fun o => is_disconnect o = false) os ->
  _stop_event (net s) = false.
Proof.
  assert (Hgen : forall (os : list (op value)) s0 s1,
            exec_all os s0 = Some s1 ->
            Forall (fun o => is_disconnect o = false) os ->
            _stop_event (net s1) = _stop_event (net s0)).
  { induction os0 as [|o os0 IH]; intros s0 s1; cbn [exec_all].
    - now intros [= <-] _.
    - destruct (exec o s0) as [sm|] eqn:Hex; [|discriminate].
      intros Hrest Hall. apply Forall_cons in Hall as [Ho Hall].
      rewrite (IH sm s1 Hrest Hall).
      destruct o as [cb|env|data w| |tid a]; cbn in Ho, Hex;
        try discriminate; injection Hex as <-.
      + unfold connect. now case_match.
      + unfold send. now repeat case_match.
      + unfold recv. now case_match.
      + apply thread_step_frame. }
  intros Hos Hall. now rewrite (Hgen os _ _ Hos Hall).
Qed.

Lemma thread_step_queue tid a s :
  data_queue (net s) `prefix_of` data_queue (net (thread_step tid a s)).
Proof.
  unfold thread_step, run_start, accept_step, recv_step, leave_recv_loop,
    established, connect_failed, set_phase.
  repeat case_match; cbn; rewrite ?sock_close_net; cbn;
    first [reflexivity | now apply prefix_app_r].
Qed.

(** X12: only [recv] takes values out of the queue: through any
    sequence of the other operations (steps of the receive loop, the
    end of a connection, [disconnect], a new [connect], [send]) the
    values queued stay queued, in place, and new ones are added behind
    them. *)
Theorem queue_shrinks_only_by_recv (os : list (op value)) s s' :
  exec_all os s = Some s' ->
  Forall (fun o => is_recv o = false) os ->
  data_queue (net s) `prefix_of` data_queue (net s').
Proof.
  revert s. induction os as [|o os IH]; intros s; cbn [exec_all].
  - now intros [= <-] _.
  - destruct (exec o s) as [sm|] eqn:Hex; [|discriminate].
    intros Hrest Hall. apply Forall_cons in Hall as [Ho Hall].
    transitivity (data_queue (net sm)); [|now apply IH].
    destruct o as [cb|env|data w| |tid a]; cbn in Ho, Hex; try discriminate.
    + injection Hex as <-. unfold connect. now case_match.
    + revert Hex. unfold disconnect.
      set (s1 := match client (net (set_stop s)) with
                 | Some c => sock_close c (set_stop s)
                 | None => set_stop s
                 end).
      assert (Hq : data_queue (net s1) = data_queue (net s)).
      { subst s1. destruct (client (net (set_stop s)));
          rewrite ?sock_close_net; reflexivity. }
      rewrite <- Hq.
      destruct (_listen_thread (net s1)) as [tid|]; [|now intros [= <-]].
      destruct (thread_alive tid s1); [|now intros [= <-]].
      apply (join_preserves
               (fun x => data_queue (net s1) `prefix_of` data_queue (net x)));
        [|reflexivity].
      intros a x Hx. etransitivity; [exact Hx|apply thread_step_queue].
    + injection Hex as <-. unfold send. now repeat case_match.
    + injection Hex as <-. apply thread_step_queue.
Qed.

(** *** Waiting for a peer *)

(** X13: the listener waits without limit: as long as the stop flag is
    clear and [accept] finds no pending connection, every step leaves
    the thread at the test of the accept loop; whatever the number of
    steps, no callback is invoked and the session does not change. *)
Theorem listener_waits_indefinitely tid t (server : sock) (env : list answers) s :
  threads s !! tid = Some t ->
  t_phase t = PAccept server ->
  _stop_event (net s) = false ->
  Forall (fun a => a_accept a = Some BlockingIOError) env ->
  let s' := thread_steps tid env s in
  thread_phase tid s' = Some (PAccept server) /\
  thread_alive tid s' = true /\
  net s' = net s /\
  threads s' = threads s /\
  trace s' = repeat (EvLog Debug MsgWaiting) (length env) ++ trace s.
Proof.
  intros Ht Hp Hstop Hall. cbn zeta. revert s Ht Hstop.
  induction Hall as [|a env Ha Hall IH]; intros s Ht Hstop; cbn [thread_steps].
  - cbn. split_and!; try reflexivity.
    + unfold thread_phase. rewrite Ht. cbn. now rewrite Hp.
    + unfold thread_alive, is_alive. now rewrite Ht, Hp.
  - assert (Hstep : thread_step tid a s = emit (EvLog Debug MsgWaiting) s).
    { unfold thread_step. rewrite Ht, Hp. unfold accept_step.
      now rewrite Hstop, Ha. }
    rewrite Hstep.
    destruct (IH (emit (EvLog Debug MsgWaiting) s) Ht Hstop)
      as (H1 & H2 & H3 & H4 & H5).
    split_and!; try assumption.
    rewrite H5. cbn [trace emit length repeat].
    rewrite repeat_cons, <- app_assoc. reflexivity.
Qed.

(** *** Which sockets are closed *)

Lemma sock_close_elem c c' s :
  c' ∈ closed (sock_close c s) -> c' = c \/ c' ∈ closed s.
Proof.
  unfold sock_close. destruct (bool_decide _); [now right|].
  cbn. intros Hin. apply elem_of_cons in Hin. tauto.
Qed.

Lemma sock_close_next c s : next_sock (sock_close c s) = next_sock s.
Proof. unfold sock_close. now destruct (bool_decide _). Qed.

Ltac bound_cases Hin :=
  cbn in Hin; rewrite ?sock_close_trace in Hin; cbn in Hin;
  repeat (apply elem_of_cons in Hin as [Hin|Hin];
          [try discriminate Hin|]).

Lemma thread_step_sockets tid a s t :
  threads s !! tid = Some t ->
  let s' := thread_step tid a s in
  (next_sock s <= next_sock s')%nat /\
  (forall fd, server_sock fd (trace s') ->
              server_sock fd (trace s) \/
              fd = next_sock s /\ next_sock s' = S fd /\
              forall c, thread_phase tid s' <> Some (PRecv c)) /\
  (forall c, c ∈ closed s' -> c ∈ closed s \/ t_phase t = PRecv c) /\
  (forall c, thread_phase tid s' = Some (PRecv c) ->
             t_phase t = PRecv c \/
             c = next_sock s /\ next_sock s' = S c /\
             forall fd, server_sock fd (trace s') -> server_sock fd (trace s)) /\
  (forall c, client (net s') = Some c ->
             client (net s) = Some c \/ thread_phase tid s' = Some (PRecv c)).
Proof.
  intros Ht. cbn zeta.
  assert (Hlt : (tid < length (threads s))%nat) by (eapply lookup_lt_Some; eassumption).
  assert (Hsame : thread_phase tid s = Some (t_phase t))
    by (unfold thread_phase; now rewrite Ht).
  assert (Hset : forall p (x : System value), threads x = threads s ->
            thread_phase tid (set_phase tid t p x) = Some p).
  { intros p x Hx. apply thread_phase_set_phase. now rewrite Hx. }
  unfold thread_step. rewrite Ht.
  destruct (t_phase t) as [| server | c | ex] eqn:Hph.
  - unfold run_start, connect_failed, established.
    repeat case_match.
    all: rewrite ?Hset by reflexivity.
    all: split_and!; [cbn; lia | | | | ].
    all: try solve [intros fd (h' & q' & Hin); bound_cases Hin;
              first [ left; exists h', q'; exact Hin
                    | injection Hin as -> _ _; right;
                      split_and!; [reflexivity..|]; intros ? [=] ]].
    all: try solve [intros c0 Hin; cbn in Hin; now left].
    all: try solve [intros c0 [= <-]; right; split_and!; [reflexivity..|];
              intros fd (h' & q' & Hin); bound_cases Hin;
              exists h', q'; exact Hin].
    all: try solve [intros c0 [=]].
    all: try solve [intros c0 Hc; cbn in Hc;
                    first [now left | injection Hc as <-; now right]].
  - unfold accept_step, connect_failed, established.
    repeat case_match.
    all: rewrite ?Hset by reflexivity.
    all: try (change (thread_phase tid (emit ?e s)) with (thread_phase tid s)).
    all: rewrite ?Hsame.
    all: split_and!; [cbn; lia | | | | ].
    all: try solve [intros fd (h' & q' & Hin); bound_cases Hin;
              left; exists h', q'; exact Hin].
    all: try solve [intros c0 Hin; cbn in Hin; now left].
    all: try solve [intros c0 [= <-]; right; split_and!; [reflexivity..|];
              intros fd (h' & q' & Hin); bound_cases Hin;
              exists h', q'; exact Hin].
    all: try solve [intros c0 [=]].
    all: try solve [intros c0 Hc; cbn in Hc;
                    first [now left | injection Hc as <-; now right]].
  - unfold recv_step, leave_recv_loop.
    repeat case_match.
    all: rewrite ?Hset by (cbn; now rewrite ?sock_close_threads).
    all: try (change (thread_phase tid (set_queue ?q s)) with (thread_phase tid s)).
    all: rewrite ?Hsame.
    all: split_and!; [cbn; rewrite ?sock_close_next; cbn; lia | | | | ].
    all: try solve [intros fd (h' & q' & Hin); bound_cases Hin;
              left; exists h', q'; exact Hin].
    all: try solve [intros c0 Hin; cbn in Hin;
              first [ now left
                    | apply sock_close_elem in Hin as [->|Hin];
                      [now right | now left] ]].
    all: try solve [intros c0 [= <-]; now left].
    all: try solve [intros c0 [=]].
    all: try solve [intros c0 Hc; cbn in Hc; rewrite ?sock_close_net in Hc;
              cbn in Hc; first [discriminate Hc | now left]].
  - rewrite Hsame. split_and!; [lia | now left | now left | intros c [=] | now left].
Qed.

Lemma sock_inv_same s s' :
  next_sock s' = next_sock s ->
  client (net s') = client (net s) ->
  (forall tid, thread_phase tid s' = thread_phase tid s \/
               thread_phase tid s' = Some PStart) ->
  (forall c, c ∈ closed s' -> c ∈ closed s \/ client (net s) = Some c) ->
  (forall fd, server_sock fd (trace s') -> server_sock fd (trace s)) ->
  sock_inv s -> sock_inv s'.
Proof.
  intros Hn Hc Hp Hcl Htr [K1 K2 K3 K4].
  split; rewrite ?Hn, ?Hc.
  - intros fd Hfd. auto.
  - intros tid c Hpc. destruct (Hp tid) as [Hs|Hs]; rewrite Hs in Hpc;
      [|discriminate]. destruct (K2 tid c Hpc). split; auto.
  - intros c Hcc. destruct (K3 c Hcc). split; auto.
  - intros c Hin. destruct (Hcl c Hin) as [Hold|Hold];
      [destruct (K4 c Hold) | destruct (K3 c Hold)]; split; auto.
Qed.

Lemma sock_inv_thread_step tid a s :
  sock_inv s -> sock_inv (thread_step tid a s).
Proof.
  intros Hinv.
  destruct (threads s !! tid) as [t|] eqn:Ht;
    [|unfold thread_step; now rewrite Ht].
  destruct (thread_step_sockets tid a s t Ht) as (Hn & Hb & Hcl & Hr & Hc).
  destruct (thread_step_effect tid a s t Ht) as (p' & evs & Hth & _).
  assert (Hlt : (tid < length (threads s))%nat) by (eapply lookup_lt_Some; eassumption).
  assert (Hsame : thread_phase tid s = Some (t_phase t))
    by (unfold thread_phase; now rewrite Ht).
  assert (Hother : forall tid', tid <> tid' ->
             thread_phase tid' (thread_step tid a s) = thread_phase tid' s).
  { intros tid' Hne. unfold thread_phase. rewrite Hth.
    now rewrite list_lookup_insert_ne. }
  destruct Hinv as [K1 K2 K3 K4].
  assert (Hold : forall c, (c < next_sock s)%nat -> ~ server_sock c (trace s) ->
            (c < next_sock (thread_step tid a s))%nat /\
            ~ server_sock c (trace (thread_step tid a s))).
  { intros c Hc1 Hc2. split; [lia|]. intros Hs.
    destruct (Hb c Hs) as [|(-> & _)]; [auto|lia]. }
  assert (Hrecv : forall tid' c,
            thread_phase tid' (thread_step tid a s) = Some (PRecv c) ->
            (c < next_sock (thread_step tid a s))%nat /\
            ~ server_sock c (trace (thread_step tid a s))).
  { intros tid' c Hp. destruct (decide (tid = tid')) as [<-|Hne].
    - destruct (Hr c Hp) as [Hq|(-> & Hs & Hsrv)].
      + apply Hold; apply (K2 tid c); now rewrite Hsame, Hq.
      + split; [lia|]. intros Hx. apply Hsrv, K1 in Hx. lia.
    - rewrite (Hother tid' Hne) in Hp. apply Hold; now apply (K2 tid' c). }
  split.
  - intros fd Hs. destruct (Hb fd Hs) as [Hx|(-> & Hx & _)]; [|lia].
    apply K1 in Hx. lia.
  - exact Hrecv.
  - intros c Hcc. destruct (Hc c Hcc) as [Hx|Hx].
    + apply Hold; now apply (K3 c).
    + now apply (Hrecv tid c).
  - intros c Hin. destruct (Hcl c Hin) as [Hx|Hx].
    + apply Hold; now apply (K4 c).
    + apply Hold; apply (K2 tid c); now rewrite Hsame, Hx.
Qed.

Lemma sock_inv_exec o s s' :
  sock_inv s -> exec o s = Some s' -> sock_inv s'.
Proof.
  intros Hinv. destruct o as [cb|env|data w| |tid a]; cbn [exec].
  - intros [= <-]. apply (sock_inv_same s); [..|assumption].
    + unfold connect. now case_match.
    + unfold connect. now case_match.
    + intros tid. apply thread_phase_connect.
    + intros c Hc. left. revert Hc. unfold connect. now case_match.
    + intros fd. unfold connect. now case_match.
  - unfold disconnect.
    set (s1 := match client (net (set_stop s)) with
               | Some c => sock_close c (set_stop s)
               | None => set_stop s
               end).
    assert (H1 : sock_inv s1).
    { apply (sock_inv_same s); [..|assumption]; subst s1; cbn;
        destruct (client (net s)) as [c0|] eqn:E;
        rewrite ?sock_close_next, ?sock_close_net, ?sock_close_trace; cbn; auto.
      - intros tid. left. unfold thread_phase. now rewrite sock_close_threads.
      - intros c Hin. apply sock_close_elem in Hin as [->|Hin]; auto. }
    destruct (_listen_thread (net s1)) as [tid|]; [|now intros [= <-]].
    destruct (thread_alive tid s1); [|now intros [= <-]].
    apply join_preserves; [|assumption].
    intros a s0. apply sock_inv_thread_step.
  - intros [= <-]. unfold send.
    destruct (client (net s)) eqn:E; [destruct (bind_result _ _)|]; cbn;
      (apply (sock_inv_same s); [..|assumption]; cbn; auto;
       intros fd (h' & q' & Hin); bound_cases Hin; exists h', q'; exact Hin).
  - intros [= <-]. unfold recv.
    destruct (data_queue (net s)); cbn; [assumption|].
    apply (sock_inv_same s); [..|assumption]; cbn; auto.
  - intros [= <-]. now apply sock_inv_thread_step.
Qed.

(** X14: the module never closes a listening socket: in every
    reachable state, a socket that was bound is not among the closed
    sockets (neither the cleanup of the receive loop nor [disconnect]
    reaches it) and is not the socket the session holds. *)
Theorem listening_socket_never_closed srv h pt s (fd : sock) (h' : string) (q' : Z) :
  reachable srv h pt s ->
  EvBind fd h' q' ∈ trace s ->
  (fd ∉ closed s) /\ client (net s) <> Some fd.
Proof.
  intros [os Hos] Hin.
  assert (Hinv : sock_inv s).
  { apply (exec_all_preserves sock_inv)
      with (os := os) (s := __init__ srv h pt); [| |assumption].
    - intros o x x'. apply sock_inv_exec.
    - split; cbn.
      + intros fd0 (? & ? & Hx). now apply elem_of_nil in Hx.
      + intros tid c. unfold thread_phase. cbn. discriminate.
      + discriminate.
      + intros c Hx. now apply elem_of_nil in Hx. }
  assert (Hsrv : server_sock fd (trace s)) by (exists h', q'; exact Hin).
  split.
  - intros Hc. now apply (sk_closed _ Hinv fd Hc).
  - intros Hc. now apply (sk_client _ Hinv fd Hc).
Qed.

(** *** Discovery *)

(** X15: what [broadcast] sends, [recv_broadcast] returns.  When
    [broadcast] returns normally it has sent one datagram, the pickle of
    the value, to the limited-broadcast address on the port given
    (10130 by default), and has closed its socket; a [recv_broadcast]
    to which that datagram is delivered returns the value and the
    sender, provided the pickle fits the buffer of 1024 bytes. *)
Theorem broadcast_round_trip `{!PickleLaws value}
    (data : value) (port : option Z) (a : udp_answers) s :
  snd (broadcast data port a s) = Ok PyNone ->
  exists payload,
    dumps data = Ok payload /\
    snd (fst (broadcast data port a s))
    = [UdpSetBroadcast (next_sock s);
       UdpSendTo (next_sock s) payload
         ("255.255.255.255"%string,
          match port with Some x => x | None => 10130 end)] /\
    next_sock s ∈ closed (fst (fst (broadcast data port a s))) /\
    forall (port' : option Z) (a' : udp_answers) (s' : System value)
           (sender : address),
      u_socket a' = None -> u_setsockopt a' = None -> u_bind a' = None ->
      u_recvfrom a' = Some (Ok (payload, sender)) ->
      (length payload <= 1024)%nat ->
      exists s'' evs,
        recv_broadcast port' a' s' = Some (s'', evs, Ok (data, sender)).
Proof.
  unfold broadcast.
  destruct (u_socket a); [discriminate|].
  destruct (u_setsockopt a); [discriminate|].
  destruct (dumps data) as [payload|] eqn:Hd; [|discriminate].
  destruct (u_sendto a); [discriminate|]. cbn. intros _.
  exists payload. split_and!; try reflexivity.
  - apply sock_close_closed.
  - intros port' a' s' sender Hs Ho Hb Hr Hlen.
    unfold recv_broadcast. rewrite Hs, Ho, Hb, Hr.
    rewrite take_ge by assumption.
    rewrite (loads_dumps data payload Hd). eauto.
Qed.

(** X16: [recv_broadcast] catches nothing and touches no part of the
    session.  It does not return while no datagram arrives; it closes
    its socket exactly when [recvfrom] has returned a datagram: when
    [setsockopt], [bind] or [recvfrom] raises, the exception reaches the
    caller with the socket left open, and when the datagram does not
    decode, the socket has already been closed. *)
Theorem recv_broadcast_discipline (port : option Z) (a : udp_answers) s :
  next_sock s ∉ closed s ->
  (recv_broadcast port a s = None <->
     u_socket a = None /\ u_setsockopt a = None /\ u_bind a = None /\
     u_recvfrom a = None) /\
  forall s' evs r,
    recv_broadcast port a s = Some (s', evs, r) ->
    net s' = net s /\ threads s' = threads s /\ trace s' = trace s /\
    (next_sock s ∈ closed s' <->
       exists payload sender, u_recvfrom a = Some (Ok (payload, sender)) /\
                              u_socket a = None /\ u_setsockopt a = None /\
                              u_bind a = None) /\
    (forall e, u_socket a = Some e \/
               u_socket a = None /\
               (u_setsockopt a = Some e \/
                u_setsockopt a = None /\
                (u_bind a = Some e \/
                 u_bind a = None /\ u_recvfrom a = Some (Raise e))) ->
               r = Raise e).
Proof.
  intros Hfresh. unfold recv_broadcast.
  destruct (u_socket a) as [e1|].
  { split; [split; [discriminate|intros (? & _); discriminate]|].
    intros s' evs r [= <- <- <-]. split_and!; try reflexivity.
    - split; [intros Hc; now apply Hfresh in Hc|].
      intros (? & ? & _ & ? & _). discriminate.
    - intros e [[= <-]|[? _]]; [reflexivity|discriminate]. }
  destruct (u_setsockopt a) as [e2|].
  { split; [split; [discriminate|intros (_ & ? & _); discriminate]|].
    intros s' evs r [= <- <- <-]. split_and!; try reflexivity.
    - split; [intros Hc; now apply Hfresh in Hc|].
      intros (? & ? & _ & _ & ? & _). discriminate.
    - intros e [?|[_ [[= <-]|[? _]]]]; [discriminate|reflexivity|discriminate]. }
  destruct (u_bind a) as [e3|].
  { split; [split; [discriminate|intros (_ & _ & ? & _); discriminate]|].
    intros s' evs r [= <- <- <-]. split_and!; try reflexivity.
    - split; [intros Hc; now apply Hfresh in Hc|].
      intros (? & ? & _ & _ & _ & ?). discriminate.
    - intros e [?|[_ [?|[_ [[= <-]|[? _]]]]]];
        [discriminate|discriminate|reflexivity|discriminate]. }
  destruct (u_recvfrom a) as [[[payload sender]|e4]|].
  - split; [split; [destruct (loads _)|intros (_ & _ & _ & ?)]; discriminate|].
    intros s' evs r Hres.
    assert (Hs' : s' = sock_close (next_sock s) (new_sock s)).
    { destruct (loads (take 1024 payload)); now injection Hres as <- _ _. }
    subst s'. rewrite sock_close_net, sock_close_threads, sock_close_trace.
    split_and!; try reflexivity.
    + split; [intros _; now exists payload, sender|intros _; apply sock_close_closed].
    + intros e [?|[_ [?|[_ [?|[_ ?]]]]]]; discriminate.
  - split; [split; [|intros (_ & _ & _ & ?)]; discriminate|].
    intros s' evs r [= <- <- <-]. split_and!; try reflexivity.
    + split; [intros Hc; now apply Hfresh in Hc|].
      intros (? & ? & ? & _). discriminate.
    + intros e [?|[_ [?|[_ [?|[_ [= <-]]]]]]]; try discriminate. reflexivity.
  - split; [split; [now intros _|reflexivity]|]. discriminate.
Qed.

(** X17: [broadcast] catches nothing either, unlike [send]: it returns
    [None] (never a status) exactly when none of [socket], [setsockopt],
    [pickle.dumps] and [sendto] raised, and exactly then has it closed
    its socket; otherwise its result is an exception and the socket is
    not closed.  The session is not touched in either case. *)
Theorem broadcast_discipline (data : value) (port : option Z) (a : udp_answers) s :
  next_sock s ∉ closed s ->
  let s' := fst (fst (broadcast data port a s)) in
  let r := snd (broadcast data port a s) in
  net s' = net s /\ threads s' = threads s /\ trace s' = trace s /\
  (r = Ok PyNone <->
     u_socket a = None /\ u_setsockopt a = None /\
     (exists payload, dumps data = Ok payload) /\ u_sendto a = None) /\
  (r = Ok PyNone <-> next_sock s ∈ closed s') /\
  (r = Ok PyNone \/ exists e, r = Raise e).
Proof.
  intros Hfresh. unfold broadcast.
  destruct (u_socket a) as [e1|].
  { cbn. split_and!; try reflexivity.
    - split; [discriminate|intros (? & _); discriminate].
    - split; [discriminate|intros Hc; now apply Hfresh in Hc].
    - right. eauto. }
  destruct (u_setsockopt a) as [e2|].
  { cbn. split_and!; try reflexivity.
    - split; [discriminate|intros (_ & ? & _); discriminate].
    - split; [discriminate|intros Hc; now apply Hfresh in Hc].
    - right. eauto. }
  destruct (dumps data) as [payload|e3].
  2:{ cbn. split_and!; try reflexivity.
      - split; [discriminate|intros (_ & _ & (? & ?) & _); discriminate].
      - split; [discriminate|intros Hc; now apply Hfresh in Hc].
      - right. eauto. }
  destruct (u_sendto a) as [e4|].
  { cbn. split_and!; try reflexivity.
    - split; [discriminate|intros (_ & _ & _ & ?); discriminate].
    - split; [discriminate|intros Hc; now apply Hfresh in Hc].
    - right. eauto. }
  cbn. rewrite sock_close_net, sock_close_threads, sock_close_trace.
  split_and!; try reflexivity.
  - split; [intros _; split_and!; eauto|reflexivity].
  - split; [intros _; apply sock_close_closed|reflexivity].
  - now left.
Qed.

End SessionFacts.

(** ** The model on explicit inputs *)

Section Examples.
Import PickleSubset.
#[local] Existing Instance PickleSubset.pickle.
#[local] Existing Instance PickleSubset.platform.

Lemma obj_pickle_laws : PickleLaws obj.
Proof.
  split. intros v b. destruct v as [|[]|n]; cbn; intros [= <-]; reflexivity.
Qed.

Lemma listening_reachable : reachable true None None listening.
Proof. exists [OpConnect 7; OpThreadStep 0%nat calm]. reflexivity. Defined.

Lemma connected_reachable : reachable true None None connected.
Proof.
  exists [OpConnect 7; OpThreadStep 0%nat calm; OpThreadStep 0%nat calm].
  reflexivity.
Defined.

Lemma pack_data_round_trip_witness :
  _pack_data (OInt x05) = Ok [x05; x00; x00; x00; x80; x04; x4b; x05; x2e] /\
  exists b_length b_data,
    [x05; x00; x00; x00; x80; x04; x4b; x05; x2e] = b_length ++ b_data /\
    length b_length = 4%nat /\
    dumps (OInt x05) = Ok b_data /\
    recv_frame
      (RecvBytes ([x05; x00; x00; x00; x80; x04; x4b; x05; x2e] ++ [x07]))
      (RecvBytes (drop 4 ([x05; x00; x00; x00; x80; x04; x4b; x05; x2e] ++ [x07])))
    = Ok (OInt x05).
Proof.
  split; [reflexivity|].
  apply (pack_data_round_trip (PickleLaws0 := obj_pickle_laws) (OInt x05)).
  reflexivity.
Defined.

Lemma header_exact_and_read_unchecked_witness :
  _pack_data (OInt x05) = Ok [x05; x00; x00; x00; x80; x04; x4b; x05; x2e] /\
  exists b_data,
    dumps (OInt x05) = Ok b_data /\
    length (take 4 [x05; x00; x00; x00; x80; x04; x4b; x05; x2e]) = 4%nat /\
    drop 4 [x05; x00; x00; x00; x80; x04; x4b; x05; x2e] = b_data /\
    struct_unpack_i (take 4 [x05; x00; x00; x00; x80; x04; x4b; x05; x2e])
    = Ok (Z.of_nat (length b_data)) /\
    forall avail : bytes,
      recv_frame (RecvBytes [x05; x00; x00; x00; x80; x04; x4b; x05; x2e])
                 (RecvBytes avail)
      = loads (take (length b_data) avail).
Proof.
  split; [reflexivity|].
  apply (header_exact_and_read_unchecked (OInt x05)). reflexivity.
Defined.

(** C3, as the specification states it, fails: the header announces
    seven bytes, the read returns five, and the five bytes decode to the
    integer 5 without any error. *)
Lemma header_mismatch_accepted : ~ header_mismatch_is_error.
Proof.
  intros Hclaim.
  destruct (Hclaim [x07; x00; x00; x00] [x80; x04; x4b; x05; x2e]
                   [x80; x04; x4b; x05; x2e] 7)
    as [e He]; [reflexivity | reflexivity | cbn; lia |].
  vm_compute in He. discriminate He.
Qed.

(** The same at the level of the thread: the value is queued and the
    thread stays in the receive loop. *)
Example short_body_is_queued :
  data_queue (net (thread_step 0%nat short_body connected)) = [OInt x05] /\
  thread_phase 0%nat (thread_step 0%nat short_body connected)
  = Some (PRecv 1%nat).
Proof. split; reflexivity. Qed.

(** An initiator dials the same default address and, once connected,
    has reported success. *)
Example dialled_trace :
  trace dialled =
  [EvCallback 0%nat 7 None; EvConnect 0%nat "player-pc" 11111] /\
  is_connected dialled = true.
Proof. split; reflexivity. Qed.

(** C2: on a connected session, when the write raises, [send] logs the
    failure, leaves the session and its thread as they are, and returns
    [None], not a status; when the write succeeds it returns 0. *)
Theorem send_failure_returns_None :
  is_connected connected = true /\
  send (OInt x05) (Some ConnectionResetError) connected
  = (emit (EvLog Warning (MsgSendFailed ConnectionResetError)) connected,
     PyNone) /\
  thread_alive 0%nat (fst (send (OInt x05) (Some ConnectionResetError) connected))
  = true /\
  snd (send (OInt x05) None connected) = PyInt 0.
Proof. repeat split. Qed.



Lemma recv_loop_exit_cleans_up_witness :
  threads connected !! 0%nat = Some receiver /\
  t_phase receiver = PRecv 1%nat /\
  thread_phase 0%nat (thread_step 0%nat peer_closed connected)
    = Some (PDone ExitRecvLoop) /\
  thread_alive 0%nat (thread_step 0%nat peer_closed connected) = false /\
  1%nat ∈ closed (thread_step 0%nat peer_closed connected) /\
  client (net (thread_step 0%nat peer_closed connected)) = None /\
  is_connected (thread_step 0%nat peer_closed connected) = false.
Proof.
  split; [reflexivity|]. split; [reflexivity|].
  destruct (recv_loop_exit_cleans_up 0%nat receiver 1%nat peer_closed connected
              eq_refl eq_refl) as [Hiff Hclean].
  apply Hclean, Hiff. right. exists StructError. split; reflexivity.
Defined.

Lemma connect_while_alive_noop_witness :
  reachable true None None listening /\
  connect 9 listening = listening.
Proof.
  split; [exact listening_reachable|].
  apply (proj1 (connect_while_alive_noop true None None listening
                  listening_reachable) 9%nat 0%nat); reflexivity.
Defined.

Lemma disconnect_spec_witness :
  (2 <= length [calm; calm])%nat /\
  (forall tid, _listen_thread (net connected) = Some tid ->
               thread_alive tid connected = true ->
               disconnect [] connected = None) /\
  exists s',
    disconnect [calm; calm] connected = Some s' /\
    _stop_event (net s') = true /\
    (forall c, client (net connected) = Some c -> c ∈ closed s') /\
    (forall tid, _listen_thread (net connected) = Some tid ->
                 thread_alive tid s' = false) /\
    (forall env', disconnect env' s' = Some s').
Proof.
  split; [cbn; lia|]. apply disconnect_spec. cbn; lia.
Defined.

Lemma send_not_connected_witness :
  client (net (__init__ (value := obj) true None None)) = None /\
  snd (send (OInt x05) None (__init__ (value := obj) true None None)) = PyInt 1.
Proof.
  split; [reflexivity|].
  apply (send_not_connected (__init__ (value := obj) true None None) (OInt x05) None).
  reflexivity.
Defined.

(** C9, as stated, fails: after [disconnect], a new listener thread
    whose [bind] raises reports that error through the callback. *)
Lemma restart_bind_failure_calls_back :
  ~ listener_after_disconnect_is_silent.
Proof.
  intros Hclaim.
  destruct (Hclaim None None (__init__ true None None)
              (set_stop (__init__ true None None)) [] 7%nat
              bind_fails bind_fails)
    as (_ & _ & Hcb).
  - exists []. reflexivity.
  - reflexivity.
  - vm_compute in Hcb. discriminate Hcb.
Qed.

Lemma after_disconnect_witness :
  reachable true None None connected /\
  disconnect [calm; calm] connected = Some hung_up /\
  exec_all [OpConnect 8] hung_up = Some Scenarios.redial /\
  _stop_event (net Scenarios.redial) = true /\
  client (net Scenarios.redial) = client (net hung_up) /\
  thread_phase 1%nat (thread_step 1%nat bind_fails Scenarios.redial)
  = Some (PDone (ExitFailed OSError)) /\
  callbacks_of 1%nat (trace (thread_step 1%nat bind_fails Scenarios.redial))
  = [Some OSError] /\
  thread_phase 1%nat (thread_step 1%nat calm Scenarios.redial)
  = Some (PAccept (next_sock Scenarios.redial)) /\
  callbacks_of 1%nat (trace (thread_step 1%nat calm Scenarios.redial)) = [].
Proof.
  assert (Hd : disconnect [calm; calm] connected = Some hung_up)
    by (vm_compute; reflexivity).
  assert (Hos : exec_all [OpConnect 8] hung_up = Some Scenarios.redial)
    by reflexivity.
  split; [exact connected_reachable|]. split; [exact Hd|]. split; [exact Hos|].
  destruct (after_disconnect true None None connected [calm; calm] hung_up
              [OpConnect 8] Scenarios.redial connected_reachable Hd Hos)
    as (Hstop & _ & _ & Hsrv).
  destruct (Hsrv eq_refl) as [Hclient Hnew].
  assert (Hlk : threads Scenarios.redial !! 1%nat = Some Scenarios.restarter)
    by (vm_compute; reflexivity).
  assert (Hge : (length (threads hung_up) <= 1)%nat)
    by (vm_compute; lia).
  destruct (Hnew 1%nat Scenarios.restarter Hlk Hge) as (_ & _ & Hstep).
  split; [exact Hstop|]. split; [exact Hclient|].
  split; [exact (proj1 (proj2 (Hstep bind_fails)))|].
  split; [exact (proj2 (proj2 (Hstep bind_fails)))|].
  split; [exact (proj1 (proj2 (Hstep calm)))|].
  exact (proj2 (proj2 (Hstep calm))).
Defined.

Lemma default_address_witness :
  reachable true None None listening /\
  host (net listening) = "player-pc"%string /\
  port (net listening) = 11111 /\
  EvBind 0%nat "player-pc" 11111 ∈ trace listening.
Proof.
  split; [exact listening_reachable|].
  destruct (default_address true None None listening listening_reachable)
    as (Hh & Hp & _ & _).
  split; [exact Hh|]. split; [exact Hp|].
  cbn. apply list_elem_of_further, list_elem_of_here.
Defined.

(** *** The rest of the module on explicit inputs *)

Import Scenarios.

Lemma hung_up_reachable : reachable true None None hung_up.
Proof. exists to_hung_up. vm_compute. reflexivity. Defined.

Lemma recv_short_header_ends_loop_witness :
  threads connected !! 0%nat = Some receiver /\
  t_phase receiver = PRecv 1%nat /\
  _stop_event (net connected) = false /\
  a_recv_hdr peer_closed = RecvBytes [] /\
  (length ([] : bytes) < 4)%nat /\
  let s' := thread_step 0%nat peer_closed connected in
  thread_phase 0%nat s' = Some (PDone ExitRecvLoop) /\
  trace s' = EvLog Debug MsgThreadExit
               :: EvLog Warning (MsgRecvFailed StructError) :: trace connected /\
  client (net s') = None /\
  1%nat ∈ closed s' /\
  data_queue (net s') = data_queue (net connected).
Proof.
  split_and!; [reflexivity.. | cbn; lia |].
  apply (recv_short_header_ends_loop 0%nat receiver 1%nat peer_closed connected []);
    first [reflexivity | cbn; lia].
Defined.

Lemma recv_negative_length_ends_loop_witness :
  threads connected !! 0%nat = Some receiver /\
  t_phase receiver = PRecv 1%nat /\
  _stop_event (net connected) = false /\
  a_recv_hdr negative_header = RecvBytes [xff; xff; xff; xff] /\
  struct_unpack_i (take 4 [xff; xff; xff; xff]) = Ok (-1) /\
  -1 < 0 /\
  let s' := thread_step 0%nat negative_header connected in
  thread_phase 0%nat s' = Some (PDone ExitRecvLoop) /\
  trace s' = EvLog Debug MsgThreadExit
               :: EvLog Warning (MsgRecvFailed ValueError) :: trace connected /\
  client (net s') = None /\
  1%nat ∈ closed s' /\
  data_queue (net s') = data_queue (net connected).
Proof.
  split_and!; [reflexivity.. | lia |].
  apply (recv_negative_length_ends_loop 0%nat receiver 1%nat negative_header
           connected [xff; xff; xff; xff] (-1));
    first [reflexivity | lia].
Defined.

Lemma recv_timeout_changes_nothing_witness :
  threads connected !! 0%nat = Some receiver /\
  t_phase receiver = PRecv 1%nat /\
  _stop_event (net connected) = false /\
  (a_recv_hdr body_timeout = RecvBytes [x05; x00; x00; x00] /\
   struct_unpack_i (take 4 [x05; x00; x00; x00]) = Ok 5 /\ 0 <= 5 /\
   a_recv_body body_timeout = RecvRaise SocketTimeout) /\
  thread_step 0%nat body_timeout connected = connected.
Proof.
  split_and!; [reflexivity.. | lia | reflexivity |].
  apply (recv_timeout_changes_nothing 0%nat receiver 1%nat body_timeout connected);
    try reflexivity.
  right. exists [x05; x00; x00; x00], 5.
  split_and!; [reflexivity.. | lia | reflexivity].
Defined.

Lemma send_reaches_peer_queue_witness :
  snd (send (OInt x05) None connected) = PyInt 0 /\
  threads connected !! 0%nat = Some receiver /\
  t_phase receiver = PRecv 1%nat /\
  _stop_event (net connected) = false /\
  exists cA frame,
    trace (fst (send (OInt x05) None connected))
    = EvSendAll cA frame :: trace connected /\
    (a_recv_hdr frame_arrives = RecvBytes (frame ++ []) ->
     a_recv_body frame_arrives = RecvBytes (drop 4 (frame ++ [])) ->
     data_queue (net (thread_step 0%nat frame_arrives connected))
     = data_queue (net connected) ++ [OInt x05] /\
     thread_phase 0%nat (thread_step 0%nat frame_arrives connected)
     = Some (PRecv 1%nat) /\
     (data_queue (net connected) = [] ->
      snd (recv (thread_step 0%nat frame_arrives connected)) = Some (OInt x05))).
Proof.
  split_and!; [reflexivity..|].
  apply (send_reaches_peer_queue (PickleLaws0 := obj_pickle_laws)
           (OInt x05) connected connected 0%nat receiver 1%nat frame_arrives []);
    reflexivity.
Defined.

Lemma receiving_implies_connected_witness :
  reachable true None None connected /\
  thread_phase 0%nat connected = Some (PRecv 1%nat) /\
  client (net connected) = Some 1%nat /\
  is_connected connected = true.
Proof.
  split; [exact connected_reachable|]. split; [reflexivity|].
  apply (proj1 (receiving_implies_connected true None None connected
                  connected_reachable) 0%nat 1%nat); reflexivity.
Defined.

Lemma connect_spawns_iff_idle_witness :
  reachable true None None hung_up /\
  (forall tid, thread_alive tid hung_up = false) /\
  _listen_thread (net (connect 9 hung_up)) = Some 1%nat /\
  thread_phase 1%nat (connect 9 hung_up) = Some PStart.
Proof.
  split; [exact hung_up_reachable|].
  assert (Hidle : forall tid, thread_alive tid hung_up = false).
  { intros [|[|tid]]; reflexivity. }
  split; [exact Hidle|].
  destruct (proj2 (connect_spawns_iff_idle true None None hung_up 9
                     hung_up_reachable) Hidle) as (Hl & Hp & _).
  split; [exact Hl | exact Hp].
Defined.

Lemma disconnect_leaves_no_thread_witness :
  reachable true None None connected /\
  disconnect [calm; calm] connected = Some hung_up /\
  (forall tid, thread_alive tid hung_up = false) /\
  _listen_thread (net (connect 9 hung_up)) = Some (length (threads hung_up)) /\
  thread_alive (length (threads hung_up)) (connect 9 hung_up) = true.
Proof.
  assert (Hd : disconnect [calm; calm] connected = Some hung_up)
    by (vm_compute; reflexivity).
  split; [exact connected_reachable|]. split; [exact Hd|].
  apply (disconnect_leaves_no_thread true None None connected [calm; calm] hung_up
           9 connected_reachable Hd).
Defined.

Lemma disconnect_while_waiting_is_silent_witness :
  reachable true None None listening /\
  thread_phase 0%nat listening = Some (PAccept 0%nat) /\
  disconnect [calm] listening = Some gave_up /\
  thread_phase 0%nat gave_up = Some (PDone ExitShutdown) /\
  callbacks_of 0%nat (trace gave_up) = [] /\
  is_connected gave_up = false.
Proof.
  split; [exact listening_reachable|]. split; [reflexivity|].
  split; [reflexivity|].
  apply (disconnect_while_waiting_is_silent true None None listening 0%nat 0%nat
           [calm] gave_up listening_reachable eq_refl eq_refl).
Defined.

Lemma stop_flag_only_by_disconnect_witness :
  exec_all to_connected (__init__ true None None) = Some connected /\
  Forall (fun o => is_disconnect o = false) to_connected /\
  _stop_event (net connected) = false.
Proof.
  assert (Hall : Forall (fun o : op obj => is_disconnect o = false) to_connected)
    by (repeat constructor).
  split; [reflexivity|]. split; [exact Hall|].
  apply (stop_flag_only_by_disconnect true None None to_connected connected
           eq_refl Hall).
Defined.

Lemma queue_shrinks_only_by_recv_witness :
  exec_all busy received_one = Some after_busy /\
  Forall (fun o : op obj => is_recv o = false) busy /\
  data_queue (net received_one) = [OInt x05] /\
  data_queue (net after_busy) = [OInt x05; OInt x05] /\
  data_queue (net received_one) `prefix_of` data_queue (net after_busy).
Proof.
  assert (Hex : exec_all busy received_one = Some after_busy)
    by (vm_compute; reflexivity).
  assert (Hall : Forall (fun o : op obj => is_recv o = false) busy)
    by (repeat constructor).
  split; [exact Hex|]. split; [exact Hall|].
  split; [vm_compute; reflexivity|]. split; [vm_compute; reflexivity|].
  exact (queue_shrinks_only_by_recv busy received_one after_busy Hex Hall).
Defined.

Lemma listener_waits_indefinitely_witness :
  threads listening !! 0%nat = Some waiter /\
  t_phase waiter = PAccept 0%nat /\
  _stop_event (net listening) = false /\
  Forall (fun a => a_accept a = Some BlockingIOError)
    [nobody_yet; nobody_yet; nobody_yet] /\
  let s' := thread_steps 0%nat [nobody_yet; nobody_yet; nobody_yet] listening in
  thread_phase 0%nat s' = Some (PAccept 0%nat) /\
  thread_alive 0%nat s' = true /\
  net s' = net listening /\
  threads s' = threads listening /\
  trace s' = repeat (EvLog Debug MsgWaiting) 3 ++ trace listening.
Proof.
  assert (Hall : Forall (fun a => a_accept a = Some BlockingIOError)
                   [nobody_yet; nobody_yet; nobody_yet])
    by (repeat constructor).
  split_and!; [reflexivity.. | exact Hall |].
  apply (listener_waits_indefinitely 0%nat waiter 0%nat
           [nobody_yet; nobody_yet; nobody_yet] listening
           eq_refl eq_refl eq_refl Hall).
Defined.

Lemma listening_socket_never_closed_witness :
  reachable true None None hung_up /\
  EvBind 0%nat "player-pc" 11111 ∈ trace hung_up /\
  closed hung_up = [1%nat] /\
  (0%nat ∉ closed hung_up) /\
  client (net hung_up) <> Some 0%nat.
Proof.
  assert (Hin : EvBind 0%nat "player-pc" 11111 ∈ trace hung_up).
  { vm_compute.
    repeat (first [apply list_elem_of_here | apply list_elem_of_further]). }
  split; [exact hung_up_reachable|]. split; [exact Hin|].
  split; [reflexivity|].
  apply (listening_socket_never_closed true None None hung_up 0%nat
           "player-pc" 11111 hung_up_reachable Hin).
Defined.

Lemma broadcast_round_trip_witness :
  snd (broadcast (OInt x05) None udp_calm (__init__ (value := obj) true None None))
  = Ok PyNone /\
  exists s'' evs,
    recv_broadcast None udp_calm (__init__ (value := obj) false None None)
    = Some (s'', evs, Ok (OInt x05, ("192.168.1.20"%string, 50000))).
Proof.
  split; [reflexivity|].
  destruct (broadcast_round_trip (PickleLaws0 := obj_pickle_laws)
              (OInt x05) None udp_calm (__init__ true None None) eq_refl)
    as (payload & Hd & _ & _ & Hrecv).
  injection Hd as <-.
  apply (Hrecv None udp_calm (__init__ false None None)
           ("192.168.1.20"%string, 50000)); first [reflexivity | cbn; lia].
Defined.

Lemma recv_broadcast_discipline_witness :
  (next_sock (__init__ (value := obj) true None None)
   ∉ closed (__init__ (value := obj) true None None)) /\
  recv_broadcast None udp_port_taken (__init__ (value := obj) true None None)
  = Some (new_sock (__init__ true None None),
          [UdpSetBroadcast 0%nat; UdpBind 0%nat (""%string, 10130)],
          Raise OSError) /\
  (0%nat ∉ closed (new_sock (__init__ (value := obj) true None None))).
Proof.
  assert (Hfresh : next_sock (__init__ (value := obj) true None None)
                   ∉ closed (__init__ (value := obj) true None None))
    by (cbn; apply not_elem_of_nil).
  split; [exact Hfresh|]. split; [reflexivity|].
  destruct (proj2 (recv_broadcast_discipline None udp_port_taken
                     (__init__ true None None) Hfresh)
              _ _ _ eq_refl) as (_ & _ & _ & Hclosed & _).
  intros Hc. apply Hclosed in Hc as (? & ? & Hr & _). discriminate Hr.
Defined.

Lemma broadcast_discipline_witness :
  (next_sock (__init__ (value := obj) true None None)
   ∉ closed (__init__ (value := obj) true None None)) /\
  snd (broadcast (OInt x05) (Some 4000) udp_calm
         (__init__ (value := obj) true None None)) = Ok PyNone /\
  0%nat ∈ closed (fst (fst (broadcast (OInt x05) (Some 4000) udp_calm
                              (__init__ (value := obj) true None None)))).
Proof.
  assert (Hfresh : next_sock (__init__ (value := obj) true None None)
                   ∉ closed (__init__ (value := obj) true None None))
    by (cbn; apply not_elem_of_nil).
  split; [exact Hfresh|]. split; [reflexivity|].
  destruct (broadcast_discipline (OInt x05) (Some 4000) udp_calm
              (__init__ true None None) Hfresh)
    as (_ & _ & _ & _ & Hclosed & _).
  apply Hclosed. reflexivity.
Defined.

End Examples.
